(** * Octahedral distortion analysis: [polyhedron_analysis.py]

    A shallow embedding of the analysis pipeline of [polyhedron_analysis.py]
    and the properties its specification states about it.

    Modelling conventions.
    - numpy's float64 scalars are idealised as the real numbers [R]; numpy
      arrays of shape (3,) are triples, arrays of shape (n,3) are lists of
      triples and 1-d arrays are lists.  Rounding, overflow and NaN are
      outside this model.
    - Python integers used as indices are [Z]; sequence indexing follows
      Python (a negative index counts from the end, an index out of range
      raises).
    - An uncaught Python exception and the two [sys.exit(1)] paths are the
      three constructors of [failure]; a function that can raise returns a
      [result].
    - pymatgen and CrystalNN are not part of the repository: the neighbour
      query, the order matcher, the lattice conversion and the content of
      the basis file are inputs of the model ([External], [Lattice]). *)

From Stdlib Require Import String.
From Stdlib Require Import Reals Lra Lia List ZArith.
From Stdlib Require Import Permutation Sorted.
Import ListNotations.
Open Scope R_scope.

(** ** Failures and the error monad *)

Inductive failure : Type :=
| BasisLoadError      (* 'IOError: failed reading from ...', sys.exit(1) *)
| CoordinationError   (* 'failed to find nearest neighbours', sys.exit(1) *)
| Uncaught.           (* an exception raised by indexing, numpy or pymatgen *)

Inductive result (A : Type) : Type :=
| Ok (a : A)
| Fail (e : failure).

Arguments Ok {A} a.
Arguments Fail {A} e.

Definition bind {A B : Type} (c : result A) (k : A -> result B) : result B :=
  match c with
  | Ok a => k a
  | Fail e => Fail e
  end.

Notation "x <- c ;; k" := (bind c (fun x => k))
  (at level 61, c at next level, right associativity).
Notation "' pat <- c ;; k" := (bind c (fun x => match x with pat => k end))
  (at level 61, pat pattern, c at next level, right associativity).

Definition raising {A : Type} (o : option A) : result A :=
  match o with
  | Some a => Ok a
  | None => Fail Uncaught
  end.

Fixpoint mapM {A B : Type} (f : A -> result B) (l : list A) : result (list B) :=
  match l with
  | [] => Ok []
  | x :: l' => y <- f x ;; ys <- mapM f l' ;; Ok (y :: ys)
  end.

(** ** Python sequences and dictionaries *)

Module Py.

(** [l[i]]: a negative [i] counts from the end; out of range is IndexError. *)
Definition index {A : Type} (l : list A) (i : Z) : option A :=
  let n := Z.of_nat (length l) in
  if (0 <=? i)%Z then nth_error l (Z.to_nat i)
  else if (- n <=? i)%Z then nth_error l (Z.to_nat (n + i))
  else None.

Definition getitem {A : Type} (l : list A) (i : Z) : result A :=
  raising (index l i).

(** [l[a:a+n]] for non-negative [a] and [n]: slices are clipped, never raise. *)
Definition slice {A : Type} (l : list A) (a n : nat) : list A :=
  firstn n (skipn a l).

(** A [dict] with string keys, in insertion order. *)
Definition dict (V : Type) : Type := list (string * V).

Definition keys {V : Type} (d : dict V) : list string := map fst d.

Fixpoint lookup {V : Type} (d : dict V) (k : string) : option V :=
  match d with
  | [] => None
  | (k', v) :: d' => if String.eqb k k' then Some v else lookup d' k
  end.

(** [d[k]]: KeyError when [k] is absent. *)
Definition dict_getitem {V : Type} (d : dict V) (k : string) : result V :=
  raising (lookup d k).

(** [sorted(l, key=key)]: ascending in [key], stable. *)
Fixpoint insert_by {A : Type} (key : A -> R) (x : A) (l : list A) : list A :=
  match l with
  | [] => [x]
  | y :: l' =>
      if Rlt_dec (key y) (key x) then y :: insert_by key x l'
      else x :: y :: l'
  end.

Definition sorted {A : Type} (key : A -> R) (l : list A) : list A :=
  fold_right (insert_by key) [] l.

End Py.

(** ** numpy on vectors of shape (3,), arrays of shape (n,3) and 1-d arrays *)

Definition vec3 : Type := (R * R * R)%type.
Definition mat3 : Type := (vec3 * vec3 * vec3)%type.   (* the three rows *)

Module Np.

Definition zeros3 : vec3 := (0, 0, 0).

Definition add (a b : vec3) : vec3 :=
  let '(a1, a2, a3) := a in let '(b1, b2, b3) := b in
  (a1 + b1, a2 + b2, a3 + b3).

Definition sub (a b : vec3) : vec3 :=
  let '(a1, a2, a3) := a in let '(b1, b2, b3) := b in
  (a1 - b1, a2 - b2, a3 - b3).

Definition div (a : vec3) (s : R) : vec3 :=
  let '(a1, a2, a3) := a in (a1 / s, a2 / s, a3 / s).

(** [np.sum(a * a)] for [a] of shape (3,). *)
Definition sumsq (a : vec3) : R :=
  let '(a1, a2, a3) := a in a1 * a1 + a2 * a2 + a3 * a3.

Definition eye3 : mat3 := ((1, 0, 0), (0, 1, 0), (0, 0, 1)).

Definition transpose (m : mat3) : mat3 :=
  let '((m11, m12, m13), (m21, m22, m23), (m31, m32, m33)) := m in
  ((m11, m21, m31), (m12, m22, m32), (m13, m23, m33)).

(** [np.dot(v, m)]: the row vector [v] times the matrix [m]. *)
Definition vecmat (v : vec3) (m : mat3) : vec3 :=
  let '(v1, v2, v3) := v in
  let '((m11, m12, m13), (m21, m22, m23), (m31, m32, m33)) := m in
  (v1 * m11 + v2 * m21 + v3 * m31,
   v1 * m12 + v2 * m22 + v3 * m32,
   v1 * m13 + v2 * m23 + v3 * m33).

(** [np.dot(m, v)] and [np.tensordot(m, v, axes=1)]: [m] times the column [v]. *)
Definition matvec (m : mat3) (v : vec3) : vec3 :=
  let '(v1, v2, v3) := v in
  let '((m11, m12, m13), (m21, m22, m23), (m31, m32, m33)) := m in
  (m11 * v1 + m12 * v2 + m13 * v3,
   m21 * v1 + m22 * v2 + m23 * v3,
   m31 * v1 + m32 * v2 + m33 * v3).

Definition matmul (a b : mat3) : mat3 :=
  let '(r1, r2, r3) := a in (vecmat r1 b, vecmat r2 b, vecmat r3 b).

(** [np.sum] of a 1-d array. *)
Definition sum (l : list R) : R := fold_right Rplus 0 l.

(** [np.mean] of a 1-d array. *)
Definition mean (l : list R) : R := sum l / INR (length l).

(** [np.sum(a, axis=0)] and [np.mean(a, axis=0)] for [a] of shape (n,3). *)
Definition sum_axis0 (a : list vec3) : vec3 := fold_right add zeros3 a.

Definition mean_axis0 (a : list vec3) : vec3 :=
  div (sum_axis0 a) (INR (length a)).

(** [a.ravel()] for [a] of shape (n,3). *)
Definition ravel (a : list vec3) : list R :=
  flat_map (fun p => let '(x, y, z) := p in [x; y; z]) a.

(** Inner product of two 1-d arrays of the same length. *)
Fixpoint dot (a b : list R) : R :=
  match a, b with
  | x :: a', y :: b' => x * y + dot a' b'
  | _, _ => 0
  end.

(** [a - b] for two coordinate arrays: elementwise on equal shapes, a single
    row is broadcast against the other array, anything else raises. *)
Definition sub_rows (a b : list vec3) : result (list vec3) :=
  if (length a =? length b)%nat then Ok (map (fun ab => sub (fst ab) (snd ab)) (combine a b))
  else match a, b with
       | [x], _ :: _ => Ok (map (fun y => sub x y) b)
       | _ :: _, [y] => Ok (map (fun x => sub x y) a)
       | _, _ => Fail Uncaught
       end.

(** [np.tensordot(a, b, axes=1)] for a list of rows [a] and a 1-d array [b]:
    [a] must be a rectangular, non-empty table whose rows are as long as [b].
    An empty [a] is an array of shape (0,): contracting it with a non-empty
    [b] raises.  (Against an empty [b] numpy returns a 0-d value instead,
    which is not an array of projections; the analysis cannot get there,
    its [b] has 18 components.) *)
Definition tensordot1 (a : list (list R)) (b : list R) : result (list R) :=
  match a with
  | [] => Fail Uncaught
  | _ :: _ =>
      if forallb (fun row => (length row =? length b)%nat) a
      then Ok (map (fun row => dot row b) a)
      else Fail Uncaught
  end.

End Np.

(** ** Data model *)

(** A lattice-image offset, as CrystalNN reports it. *)
Definition image_t : Type := (Z * Z * Z)%type.

(** pymatgen's [Lattice], reduced to the one method the analysis calls. *)
Record Lattice : Type := {
  get_cartesian_coords : image_t -> vec3
}.

(** pymatgen's [Structure]: the Cartesian coordinates of its sites, in site
    order, and its lattice. *)
Record Structure : Type := {
  sites : list vec3;
  lattice : Lattice
}.

(** One entry of [CrystalNN.get_nn_info]: the keys the analysis reads. *)
Record NeighborCandidate : Type := {
  site_index : Z;
  image : image_t;
  weight : R
}.

(** pymatgen's [Molecule]: every site is a hydrogen placeholder, so a
    molecule is the ordered list of its [cart_coords]. *)
Definition Molecule : Type := list vec3.

(** The parsed basis file: irrep label to list of basis vectors. *)
Definition BasisTable : Type := Py.dict (list (list R)).

(** What the analysis obtains from outside the repository:
    - [get_nn_info s n]: [CrystalNN(...).get_nn_info(structure=s, n=n)],
      [None] when it raises;
    - [order_match reference p]: the [(inds, u, v)] of
      [HungarianOrderMatcher(reference).match(p)], [None] when it raises;
    - [json_load_basis]: [json.load] of [basis/octahedron_basis.json],
      [None] on IOError. *)
Record External : Type := {
  get_nn_info : Structure -> Z -> option (list NeighborCandidate);
  order_match : Molecule -> Molecule -> option (list Z * mat3 * vec3);
  json_load_basis : option BasisTable
}.

(** ** The functions of [polyhedron_analysis.py] *)

(** The comprehension of [construct_molecule]:
    [struct.sites[site].coords + struct.lattice.get_cartesian_coords(images[i])]
    for [i, site] in [enumerate(nearest_neighbour_indices)]. *)
Fixpoint neighbour_rows (struct : Structure) (images : list image_t) (i : nat)
  (nearest_neighbour_indices : list Z) : result (list vec3) :=
  match nearest_neighbour_indices with
  | [] => Ok []
  | site :: rest =>
      p <- Py.getitem (sites struct) site ;;
      im <- Py.getitem images (Z.of_nat i) ;;
      rows <- neighbour_rows struct images (S i) rest ;;
      Ok (Np.add p (get_cartesian_coords (lattice struct) im) :: rows)
  end.

(** [construct_molecule].  An empty row array has shape (0,) and cannot be
    shifted by [origin]; [Molecule] rejects species and coordinates of
    different lengths. *)
Definition construct_molecule (struct : Structure) (centre_atom : Z)
  (nearest_neighbour_indices : list Z) (ave_bond : R)
  (images : list image_t) (origin : vec3) : result Molecule :=
  rows <- neighbour_rows struct images 0 nearest_neighbour_indices ;;
  match rows with
  | [] => Fail Uncaught
  | _ :: _ =>
      if (length images =? length rows)%nat
      then Ok (Np.zeros3 :: map (fun p => Np.div (Np.sub p origin) ave_bond) rows)
      else Fail Uncaught
  end.

(** [construct_molecule_ideal]; [species] is not used. *)
Definition construct_molecule_ideal (ideal_coords : list vec3)
  (species : list string) : result Molecule :=
  match ideal_coords with
  | [] => Fail Uncaught
  | _ :: _ => Ok (Np.zeros3 :: ideal_coords)
  end.

(** [SymmOp(M).operate(x)] for the affine matrix [M] whose upper block is
    [u.T] and whose last column is [v]. *)
Definition symmop_operate (u : mat3) (v : vec3) (x : vec3) : vec3 :=
  Np.add (Np.matvec (Np.transpose u) x) v.

(** The two updates of [match_molecules]: [apply_operation], then
    [np.array(_sites)[inds].tolist()]. *)
Definition apply_match (molecule_transform : Molecule) (inds : list Z)
  (u : mat3) (v : vec3) : result Molecule :=
  mapM (Py.getitem (map (symmop_operate u v) molecule_transform)) inds.

Definition match_molecules (ext : External)
  (molecule_transform molecule_reference : Molecule)
  : result (Molecule * mat3 * vec3) :=
  '(inds, u, v) <- raising (order_match ext molecule_reference molecule_transform) ;;
  molecule_transform <- apply_match molecule_transform inds u v ;;
  Ok (molecule_transform, u, v).

Definition calc_displacement (pymatgen_molecule pymatgen_molecule_ideal : Molecule)
  (irrep_distortions : list (list R)) : result (list R) :=
  diff <- Np.sub_rows pymatgen_molecule pymatgen_molecule_ideal ;;
  Np.tensordot1 irrep_distortions (skipn 3 (Np.ravel diff)).

Definition calc_displacement_centre (struct : Structure) (centre_atom : Z)
  (origin : vec3) (ave_bond : R) (matrix_rotation : mat3) : result vec3 :=
  c <- Py.getitem (sites struct) centre_atom ;;
  let displacement_centre :=
    Np.vecmat (Np.div (Np.sub c origin) ave_bond) matrix_rotation in
  Ok (Np.matvec Np.eye3 displacement_centre).

(** *** [calc_distortions_from_struct_octahedron_withcentre], by stages *)

Definition ideal_coords : list vec3 :=
  [ (-1, 0, 0); (0, -1, 0); (0, 0, -1); (0, 0, 1); (0, 1, 0); (1, 0, 0) ].

(** "read json": the [try] around [json.load]. *)
Definition read_basis (ext : External) : result BasisTable :=
  match json_load_basis ext with
  | Some dict_basis => Ok dict_basis
  | None => Fail BasisLoadError
  end.

(** The loop filling [irrep_distortions]. *)
Definition collect_irrep_distortions (dict_basis : BasisTable)
  : result (list (list R)) :=
  groups <- mapM (Py.dict_getitem dict_basis) (Py.keys dict_basis) ;;
  Ok (concat groups).

(** "handle nearest neighbours": [temp_dict] and the test that follows it.
    ([get_neighbor_list] is called for nothing: its value is dropped.) *)
Definition nearest_neighbours (ext : External) (mp_struct : Structure)
  (centre_atom : Z) : result (list NeighborCandidate) :=
  nn <- raising (get_nn_info ext mp_struct centre_atom) ;;
  let temp_dict :=
    firstn (length ideal_coords) (Py.sorted (fun x => - weight x) nn) in
  if (length ideal_coords <? 6)%nat then Fail CoordinationError
  else Ok temp_dict.

(** [temp_coords]. *)
Definition neighbour_coords (mp_struct : Structure)
  (temp_dict : list NeighborCandidate) : result (list vec3) :=
  mapM (fun d =>
          p <- Py.getitem (sites mp_struct) (site_index d) ;;
          Ok (Np.add p (get_cartesian_coords (lattice mp_struct) (image d))))
       temp_dict.

(** [molecule_origin] and [ave_bond].  Without rows [temp_coords] has shape
    (0,) and [np.sum(..., axis=1)] raises. *)
Definition shell_frame (temp_coords : list vec3) : result (vec3 * R) :=
  match temp_coords with
  | [] => Fail Uncaught
  | _ :: _ =>
      let molecule_origin := Np.mean_axis0 temp_coords in
      let ave_bond := map (fun p => Np.sub p molecule_origin) temp_coords in
      let ave_bond := Np.mean (map (fun r => sqrt (Np.sumsq r)) ave_bond) in
      Ok (molecule_origin, ave_bond)
  end.

(** "average": the loop over [dict_basis] with its running [count]. *)
Fixpoint irrep_sums (dict_basis : BasisTable) (irreps : list string)
  (distortion_amplitudes : list R) (count : nat) : result (list R) :=
  match irreps with
  | [] => Ok []
  | irrep :: rest =>
      vecs <- Py.dict_getitem dict_basis irrep ;;
      let dim := length vecs in
      temp_list <- irrep_sums dict_basis rest distortion_amplitudes (count + dim) ;;
      Ok (Np.sum (Py.slice distortion_amplitudes count dim) :: temp_list)
  end.

Definition irrep_average (dict_basis : BasisTable)
  (distortion_amplitudes : list R) : result (list R) :=
  let distortion_amplitudes := map (fun a => a * a) distortion_amplitudes in
  temp_list <- irrep_sums dict_basis (Py.keys dict_basis) distortion_amplitudes 0 ;;
  Ok (skipn 3 (map sqrt temp_list)).

Definition calc_distortions_from_struct_octahedron_withcentre (ext : External)
  (mp_struct : Structure) (centre_atom : Z) : result (list R) :=
  dict_basis <- read_basis ext ;;
  irrep_distortions <- collect_irrep_distortions dict_basis ;;
  temp_dict <- nearest_neighbours ext mp_struct centre_atom ;;
  temp_coords <- neighbour_coords mp_struct temp_dict ;;
  '(molecule_origin, ave_bond) <- shell_frame temp_coords ;;
  pymatgen_molecule <-
    construct_molecule mp_struct centre_atom (map site_index temp_dict)
      ave_bond (map image temp_dict) molecule_origin ;;
  pymatgen_molecule_ideal <-
    construct_molecule_ideal ideal_coords
      (repeat "H"%string (length pymatgen_molecule)) ;;
  '(pymatgen_molecule, matrix_rotation, _) <-
    match_molecules ext pymatgen_molecule pymatgen_molecule_ideal ;;
  distortion_amplitudes <-
    calc_displacement pymatgen_molecule pymatgen_molecule_ideal irrep_distortions ;;
  centre_atom_amplitude <-
    calc_displacement_centre mp_struct centre_atom molecule_origin ave_bond
      matrix_rotation ;;
  let centre_atom_amplitude := sqrt (Np.sumsq centre_atom_amplitude) in
  distortion_amplitudes <- irrep_average dict_basis distortion_amplitudes ;;
  Ok (distortion_amplitudes ++ [centre_atom_amplitude]).

Definition calc_distortions_from_struct_octahedron (ext : External)
  (mp_struct : Structure) (centre_atom : Z) : result (list R) :=
  v <- calc_distortions_from_struct_octahedron_withcentre ext mp_struct centre_atom ;;
  Ok (firstn 4 v).

(** ** The specification's vocabulary *)

(** Euclidean norm of a vector and distance between two points. *)
Definition norm (a : vec3) : R := sqrt (Np.sumsq a).

Definition distance (a b : vec3) : R := norm (Np.sub a b).

(** Molecule Builder: where a candidate sits, given the coordinates of its
    site. *)
Definition neighbour_position (s : Structure) (d : NeighborCandidate)
  (site : vec3) : vec3 :=
  Np.add site (get_cartesian_coords (lattice s) (image d)).

(** [located s shell positions]: every candidate names a site of [s] and
    [positions] lists where the candidates sit. *)
Definition located (s : Structure) (shell : list NeighborCandidate)
  (positions : list vec3) : Prop :=
  Forall2 (fun d p => exists site, Py.index (sites s) (site_index d) = Some site
                                   /\ p = neighbour_position s d site)
          shell positions.

(** Basis Projector, in the specification's words: the displacement vector,
    an irrep's basis vectors, its amplitude, and the reported amplitudes. *)
Definition spec_displacement (aligned ideal : Molecule) : list R :=
  skipn 3 (Np.ravel (map (fun ab => Np.sub (fst ab) (snd ab)) (combine aligned ideal))).

Definition irrep_vectors (basis : BasisTable) (irrep : string) : list (list R) :=
  match Py.lookup basis irrep with
  | Some vecs => vecs
  | None => []
  end.

Definition spec_irrep_amplitude (d : list R) (vecs : list (list R)) : R :=
  sqrt (Np.sum (map (fun b => (Np.dot b d)²) vecs)).

Definition spec_amplitudes (aligned ideal : Molecule) (basis : BasisTable) : list R :=
  let d := spec_displacement aligned ideal in
  skipn 3 (map (fun irrep => spec_irrep_amplitude d (irrep_vectors basis irrep))
               (Py.keys basis)).

(** All basis vectors of a table, irrep after irrep. *)
Definition basis_rows (basis : BasisTable) : list (list R) :=
  concat (map (irrep_vectors basis) (Py.keys basis)).

(** A table the projection accepts: at least one basis vector, and every
    basis vector of dimension [n]. *)
Definition well_formed_basis (n : nat) (basis : BasisTable) : Prop :=
  basis_rows basis <> [] /\ Forall (fun b => length b = n) (basis_rows basis).

(** Alignment Engine: orthogonality of the rotation, the squared residual
    between two point lists, and optimality of an answer of the matcher
    among the relabellings by a permutation followed by an orthogonal map
    and a translation. *)
Definition orthogonal (m : mat3) : Prop :=
  Np.matmul m (Np.transpose m) = Np.eye3 /\ Np.matmul (Np.transpose m) m = Np.eye3.

Definition residual (a b : Molecule) : R :=
  Np.sum (map (fun ab => Np.sumsq (Np.sub (fst ab) (snd ab))) (combine a b)).

Definition index_permutation (inds : list Z) (n : nat) : Prop :=
  Permutation inds (map Z.of_nat (seq 0 n)).

Definition optimal_match (reference p : Molecule) (a : list Z * mat3 * vec3) : Prop :=
  let '(inds, u, v) := a in
  exists aligned,
    apply_match p inds u v = Ok aligned /\
    length aligned = length reference /\
    forall inds' u' v' aligned',
      index_permutation inds' (length p) -> orthogonal u' ->
      apply_match p inds' u' v' = Ok aligned' ->
      residual aligned reference <= residual aligned' reference.

(** Ideal Reference Builder: the reference molecule of the octahedron. *)
Definition ideal_molecule : Molecule := Np.zeros3 :: ideal_coords.

(** A vertex of a regular polyhedron: the centre plus the bond length times
    a unit direction. *)
Definition scaled (k : R) (e : vec3) : vec3 :=
  let '(e1, e2, e3) := e in (k * e1, k * e2, k * e3).

Definition vertex (centre : vec3) (bond : R) (e : vec3) : vec3 :=
  Np.add centre (scaled bond e).

(** A computation that does not end in [CoordinationError]. *)
Definition uncoordinated {A : Type} (r : result A) : Prop :=
  r <> Fail CoordinationError.

(** Neighbor Selector: descending order of weight. *)
Definition heavier (a b : NeighborCandidate) : Prop := weight b <= weight a.

(** ** Example inputs *)

(** A cubic lattice of edge [a]. *)
Definition cubic (a : R) : Lattice :=
  {| get_cartesian_coords :=
       fun im => let '(i, j, k) := im in (a * IZR i, a * IZR j, a * IZR k) |}.

(** A perovskite-like cell of edge 4: the octahedral site at (1,1,1) and one
    anion on each axis through it, at distance 2.  The three other vertices
    of the octahedron are periodic images of the same anions. *)
Definition perovskite : Structure :=
  {| sites := [ (1, 1, 1); (3, 1, 1); (1, 3, 1); (1, 1, 3) ];
     lattice := cubic 4 |}.

Definition candidate (i : Z) (im : image_t) (w : R) : NeighborCandidate :=
  {| site_index := i; image := im; weight := w |}.

(** The six vertices around site 0, and the answer of the neighbour query:
    the image of site 0 in the next cell, with a small weight, comes first. *)
Definition perovskite_shell : list NeighborCandidate :=
  [ candidate 1 (-1, 0, 0)%Z 1; candidate 2 (0, -1, 0)%Z 1;
    candidate 3 (0, 0, -1)%Z 1; candidate 3 (0, 0, 0)%Z 1;
    candidate 2 (0, 0, 0)%Z 1;  candidate 1 (0, 0, 0)%Z 1 ].

Definition perovskite_nn : list NeighborCandidate :=
  candidate 0 (1, 0, 0)%Z (1 / 4) :: perovskite_shell.

(** The same site with one vertex missing. *)
Definition vacancy_shell : list NeighborCandidate := firstn 5 perovskite_shell.

(** A stand-in for the order matcher: it rejects a molecule whose number of
    atoms differs from the reference's, as pymatgen does, and answers with
    the identity otherwise. *)
Definition identity_matcher (reference p : Molecule)
  : option (list Z * mat3 * vec3) :=
  if (length p =? length reference)%nat
  then Some (map Z.of_nat (seq 0 (length p)), Np.eye3, Np.zeros3)
  else None.

(** A table of the shape of the basis file (seven irreps, eighteen
    components per vector) made of coordinate vectors. *)
Definition unit_vector (k : nat) : list R :=
  map (fun j => if (j =? k)%nat then 1 else 0) (seq 0 18).

Definition example_basis : BasisTable :=
  [ ("A1g"%string, [unit_vector 0]);
    ("T1g"%string, [unit_vector 1; unit_vector 2; unit_vector 3]);
    ("T1u_a"%string, [unit_vector 4; unit_vector 5; unit_vector 6]);
    ("Eg"%string, [unit_vector 7; unit_vector 8]);
    ("T2g"%string, [unit_vector 9; unit_vector 10; unit_vector 11]);
    ("T1u"%string, [unit_vector 12; unit_vector 13; unit_vector 14]);
    ("T2u"%string, [unit_vector 15; unit_vector 16; unit_vector 17]) ].

Definition perovskite_ext : External :=
  {| get_nn_info := fun _ _ => Some perovskite_nn;
     order_match := identity_matcher;
     json_load_basis := Some example_basis |}.

Definition vacancy_ext : External :=
  {| get_nn_info := fun _ _ => Some vacancy_shell;
     order_match := identity_matcher;
     json_load_basis := Some example_basis |}.

(** An octahedron elongated along z, already aligned. *)
Definition elongated : Molecule :=
  [ (0, 0, 0); (-1, 0, 0); (0, -1, 0); (0, 0, - (6 / 5)); (0, 0, 6 / 5);
    (0, 1, 0); (1, 0, 0) ].

(** A quarter turn about the z axis. *)
Definition quarter_turn : mat3 := ((0, 1, 0), (-1, 0, 0), (0, 0, 1)).

(** ** Vocabulary of the further properties *)

(** A computation whose only failure is an uncaught exception. *)
Definition raises_only {A : Type} (r : result A) : Prop :=
  forall e, r = Fail e -> e = Uncaught.

(** The candidates of weight [w]. *)
Definition weighs (w : R) (d : NeighborCandidate) : bool :=
  if Req_dec_T (weight d) w then true else false.

(** The number of sites of a structure, as an integer. *)
Definition num_sites (s : Structure) : Z := Z.of_nat (length (sites s)).

(** The perovskite cell blown up by a factor 2 and moved by (1,0,0). *)
Definition swollen : Structure :=
  {| sites := [ (3, 2, 2); (7, 2, 2); (3, 6, 2); (3, 2, 6) ];
     lattice := cubic 8 |}.

(** * Properties *)

(** ** The error monad *)

Lemma bind_Ok_inv {A B : Type} (c : result A) (k : A -> result B) (b : B) :
  bind c k = Ok b -> exists a, c = Ok a /\ k a = Ok b.
Proof.
  destruct c as [a|e]; simpl; intro H; [eauto | discriminate].
Qed.

Ltac inv_bind H :=
  let a := fresh "a" in
  let Ha := fresh "Ha" in
  apply bind_Ok_inv in H; destruct H as (a & Ha & H).

Lemma mapM_Ok_Forall2 {A B : Type} (f : A -> result B) (l : list A) (l' : list B) :
  mapM f l = Ok l' <-> Forall2 (fun x y => f x = Ok y) l l'.
Proof.
  revert l'; induction l as [|x l IH]; intros l'; simpl.
  - split; intro H.
    + injection H as <-. constructor.
    + inversion H. reflexivity.
  - split; intro H.
    + inv_bind H. inv_bind H. injection H as <-.
      constructor; [assumption | now apply IH].
    + inversion H as [|? y ? ys Hx Hl]; subst.
      rewrite Hx. simpl. apply IH in Hl. rewrite Hl. reflexivity.
Qed.

(** ** Sorting *)

Section Sorting.

Context {A : Type} (key : A -> R).

Let le_key (a b : A) : Prop := key a <= key b.

Lemma insert_by_perm (x : A) (l : list A) :
  Permutation (Py.insert_by key x l) (x :: l).
Proof.
  induction l as [|y l IH]; simpl.
  - reflexivity.
  - destruct (Rlt_dec (key y) (key x)).
    + rewrite IH. apply perm_swap.
    + reflexivity.
Qed.

Lemma sorted_perm (l : list A) : Permutation (Py.sorted key l) l.
Proof.
  induction l as [|x l IH]; simpl.
  - reflexivity.
  - unfold Py.sorted in *. simpl. rewrite insert_by_perm. now constructor.
Qed.

Lemma insert_by_sorted (x : A) (l : list A) :
  StronglySorted le_key l -> StronglySorted le_key (Py.insert_by key x l).
Proof.
  induction l as [|y l IH]; simpl; intro Hs.
  - constructor; constructor.
  - inversion Hs as [|? ? Hl Hy]; subst.
    destruct (Rlt_dec (key y) (key x)) as [Hlt|Hge].
    + constructor; [now apply IH|].
      eapply Permutation_Forall; [symmetry; apply insert_by_perm|].
      constructor; [unfold le_key; lra | assumption].
    + constructor; [assumption|].
      constructor; [unfold le_key; lra|].
      eapply Forall_impl; [|exact Hy].
      unfold le_key. intros a Ha. lra.
Qed.

Lemma sorted_sorted (l : list A) : StronglySorted le_key (Py.sorted key l).
Proof.
  induction l as [|x l IH]; unfold Py.sorted in *; simpl.
  - constructor.
  - now apply insert_by_sorted.
Qed.

End Sorting.

Lemma sorted_by_weight_heavier (nn : list NeighborCandidate) :
  StronglySorted heavier (Py.sorted (fun x => - weight x) nn).
Proof.
  pose proof (sorted_sorted (fun x => - weight x) nn) as H.
  induction H as [|x l Hl IH Hx]; constructor; auto.
  eapply Forall_impl; [|exact Hx].
  unfold heavier. simpl. intros a Ha. lra.
Qed.

(** The test after [temp_dict] compares the length of [ideal_coords], which
    is 6: it never fails. *)
Lemma nearest_neighbours_eq (ext : External) (s : Structure) (c : Z) :
  nearest_neighbours ext s c =
  (nn <- raising (get_nn_info ext s c) ;;
   Ok (firstn 6 (Py.sorted (fun x => - weight x) nn))).
Proof.
  reflexivity.
Qed.

(** ** Dictionaries and the basis table *)

Lemma mapM_pointwise {A B : Type} (f : A -> result B) (g : A -> B) (l : list A) :
  (forall x, In x l -> f x = Ok (g x)) -> mapM f l = Ok (map g l).
Proof.
  induction l as [|x l IH]; simpl; intro H.
  - reflexivity.
  - rewrite (H x) by now left. simpl.
    rewrite IH by (intros; apply H; now right). reflexivity.
Qed.

Lemma lookup_keys {V : Type} (d : Py.dict V) (k : string) :
  In k (Py.keys d) -> exists v, Py.lookup d k = Some v.
Proof.
  induction d as [|[k' v] d IH]; simpl; intro H.
  - contradiction.
  - destruct (String.eqb k k') eqn:E; [eauto|].
    destruct H as [H|H]; [|auto].
    subst k'. rewrite String.eqb_refl in E. discriminate.
Qed.

Lemma dict_getitem_keys (basis : BasisTable) (k : string) :
  In k (Py.keys basis) -> Py.dict_getitem basis k = Ok (irrep_vectors basis k).
Proof.
  intro H. destruct (lookup_keys basis k H) as [v Hv].
  unfold Py.dict_getitem, irrep_vectors. rewrite Hv. reflexivity.
Qed.

Lemma collect_irrep_distortions_rows (basis : BasisTable) :
  collect_irrep_distortions basis = Ok (basis_rows basis).
Proof.
  unfold collect_irrep_distortions, basis_rows.
  rewrite (mapM_pointwise _ (irrep_vectors basis)).
  - reflexivity.
  - intros k Hk. now apply dict_getitem_keys.
Qed.

(** The running [count] cuts the flat list of squared projections back into
    the irreps it was concatenated from. *)
Lemma irrep_sums_by_irrep (basis : BasisTable) (f : list R -> R) (squared : list R) :
  forall (irreps : list string) (count : nat),
    incl irreps (Py.keys basis) ->
    skipn count squared = map f (concat (map (irrep_vectors basis) irreps)) ->
    irrep_sums basis irreps squared count =
    Ok (map (fun k => Np.sum (map f (irrep_vectors basis k))) irreps).
Proof.
  induction irreps as [|k irreps IH]; intros count Hin Hsk; simpl.
  - reflexivity.
  - rewrite dict_getitem_keys by (apply Hin; now left). simpl.
    simpl in Hsk. rewrite map_app in Hsk.
    rewrite (IH (count + length (irrep_vectors basis k))%nat).
    + simpl. unfold Py.slice. rewrite Hsk.
      rewrite firstn_app, firstn_all2 by (rewrite length_map; lia).
      rewrite length_map, Nat.sub_diag. simpl. rewrite app_nil_r. reflexivity.
    + intros x Hx. apply Hin. now right.
    + rewrite Nat.add_comm, <- skipn_skipn, Hsk.
      rewrite skipn_app, skipn_all2 by (rewrite length_map; lia).
      rewrite length_map, Nat.sub_diag. reflexivity.
Qed.

Lemma irrep_average_spec (basis : BasisTable) (d : list R) :
  irrep_average basis (map (fun row => Np.dot row d) (basis_rows basis)) =
  Ok (skipn 3 (map (fun k => spec_irrep_amplitude d (irrep_vectors basis k))
                   (Py.keys basis))).
Proof.
  unfold irrep_average.
  rewrite (irrep_sums_by_irrep basis (fun b => Np.dot b d * Np.dot b d)).
  - simpl. rewrite map_map. reflexivity.
  - apply incl_refl.
  - simpl. rewrite map_map. reflexivity.
Qed.

Lemma sub_rows_same_length (a b : list vec3) :
  length a = length b ->
  Np.sub_rows a b = Ok (map (fun ab => Np.sub (fst ab) (snd ab)) (combine a b)).
Proof.
  intro H. unfold Np.sub_rows. rewrite H, Nat.eqb_refl. reflexivity.
Qed.

Lemma tensordot1_rows (rows : list (list R)) (d : list R) :
  rows <> [] -> Forall (fun b => length b = length d) rows ->
  Np.tensordot1 rows d = Ok (map (fun row => Np.dot row d) rows).
Proof.
  intros Hne Hall. unfold Np.tensordot1.
  destruct rows as [|r rows]; [congruence|].
  replace (forallb _ _) with true; [reflexivity|].
  symmetry. apply forallb_forall. intros x Hx.
  rewrite Forall_forall in Hall. apply Nat.eqb_eq. now apply Hall.
Qed.

Lemma calc_displacement_projections (aligned ideal : Molecule) (basis : BasisTable) :
  length aligned = length ideal ->
  well_formed_basis (length (spec_displacement aligned ideal)) basis ->
  calc_displacement aligned ideal (basis_rows basis) =
  Ok (map (fun row => Np.dot row (spec_displacement aligned ideal)) (basis_rows basis)).
Proof.
  intros Hlen [Hne Hall]. unfold calc_displacement.
  rewrite sub_rows_same_length by assumption. simpl.
  now apply tensordot1_rows.
Qed.

(** ** Vectors and matrices *)

Ltac vec_crush :=
  repeat match goal with
         | v : vec3 |- _ => destruct v as [[? ?] ?]
         | m : mat3 |- _ => destruct m as [[? ?] ?]
         end;
  unfold norm, distance, vertex, scaled, symmop_operate, Np.matmul, Np.transpose, Np.vecmat,
    Np.matvec, Np.add, Np.sub, Np.div, Np.sumsq, Np.eye3, Np.zeros3 in *.

Ltac by_components := repeat (apply (f_equal2 (@pair _ _))).

Lemma matvec_eye3 (x : vec3) : Np.matvec Np.eye3 x = x.
Proof.
  vec_crush. by_components; ring.
Qed.

Lemma symmop_identity (x : vec3) : symmop_operate Np.eye3 Np.zeros3 x = x.
Proof.
  vec_crush. by_components; ring.
Qed.

Lemma orthogonal_eye3 : orthogonal Np.eye3.
Proof.
  split; vec_crush; by_components; ring.
Qed.

Lemma sumsq_nonneg (x : vec3) : 0 <= Np.sumsq x.
Proof.
  vec_crush. nra.
Qed.

Lemma sumsq_sub_zero (x y : vec3) : Np.sumsq (Np.sub x y) <= 0 -> x = y.
Proof.
  destruct x as [[x1 x2] x3], y as [[y1 y2] y3]. simpl. intro H.
  pose proof (Rle_0_sqr (x1 - y1)) as H1.
  pose proof (Rle_0_sqr (x2 - y2)) as H2.
  pose proof (Rle_0_sqr (x3 - y3)) as H3.
  unfold Rsqr in *.
  assert (E1 : (x1 - y1) * (x1 - y1) = 0) by lra.
  assert (E2 : (x2 - y2) * (x2 - y2) = 0) by lra.
  assert (E3 : (x3 - y3) * (x3 - y3) = 0) by lra.
  apply Rmult_integral in E1, E2, E3.
  by_components; lra.
Qed.

(** A matrix with orthonormal rows keeps the sum of squares of the row
    vector it is applied to. *)
Lemma sumsq_vecmat_orthogonal (m : mat3) (x : vec3) :
  orthogonal m -> Np.sumsq (Np.vecmat x m) = Np.sumsq x.
Proof.
  intros [H _].
  destruct m as [[[[a11 a12] a13] [[a21 a22] a23]] [[a31 a32] a33]].
  destruct x as [[x1 x2] x3].
  unfold Np.matmul, Np.transpose, Np.vecmat, Np.eye3 in H.
  injection H as H11 H12 H13 H21 H22 H23 H31 H32 H33.
  unfold Np.vecmat, Np.sumsq.
  transitivity
    (x1 * x1 * (a11 * a11 + a12 * a12 + a13 * a13)
     + x2 * x2 * (a21 * a21 + a22 * a22 + a23 * a23)
     + x3 * x3 * (a31 * a31 + a32 * a32 + a33 * a33)
     + 2 * (x1 * x2) * (a11 * a21 + a12 * a22 + a13 * a23)
     + 2 * (x1 * x3) * (a11 * a31 + a12 * a32 + a13 * a33)
     + 2 * (x2 * x3) * (a21 * a31 + a22 * a32 + a23 * a33)).
  - ring.
  - rewrite H11, H22, H33, H12, H13, H23. ring.
Qed.

(** ** The pipeline, stage by stage *)

Lemma withcentre_stages (ext : External) (s : Structure) (c : Z) (v : list R) :
  calc_distortions_from_struct_octahedron_withcentre ext s c = Ok v ->
  exists basis shell positions origin ave_bond mol aligned rot tr proj centre amps,
    read_basis ext = Ok basis /\
    nearest_neighbours ext s c = Ok shell /\
    neighbour_coords s shell = Ok positions /\
    shell_frame positions = Ok (origin, ave_bond) /\
    construct_molecule s c (map site_index shell) ave_bond (map image shell) origin
      = Ok mol /\
    match_molecules ext mol ideal_molecule = Ok (aligned, rot, tr) /\
    calc_displacement aligned ideal_molecule (basis_rows basis) = Ok proj /\
    calc_displacement_centre s c origin ave_bond rot = Ok centre /\
    irrep_average basis proj = Ok amps /\
    v = amps ++ [norm centre].
Proof.
  unfold calc_distortions_from_struct_octahedron_withcentre. intro H.
  inv_bind H. rename a into basis, Ha into Hbasis.
  inv_bind H. rename a into rows, Ha into Hrows.
  rewrite collect_irrep_distortions_rows in Hrows. injection Hrows as <-.
  inv_bind H. rename a into shell, Ha into Hshell.
  inv_bind H. rename a into positions, Ha into Hpos.
  inv_bind H. destruct a as [origin ave_bond]. rename Ha into Hframe.
  inv_bind H. rename a into mol, Ha into Hmol.
  inv_bind H. rename Ha into Hideal. injection Hideal as <-.
  inv_bind H. destruct a as [[aligned rot] tr]. rename Ha into Hmatch.
  inv_bind H. rename a into proj, Ha into Hproj.
  inv_bind H. rename a into centre, Ha into Hcentre.
  inv_bind H. rename a into amps, Ha into Hamps.
  injection H as <-.
  exists basis, shell, positions, origin, ave_bond, mol, aligned, rot, tr, proj,
    centre, amps.
  repeat split; assumption.
Qed.

Lemma getitem_Ok {A : Type} (l : list A) (i : Z) (x : A) :
  Py.getitem l i = Ok x <-> Py.index l i = Some x.
Proof.
  unfold Py.getitem. destruct (Py.index l i); simpl; split; congruence.
Qed.

Lemma calc_displacement_centre_Ok (s : Structure) (c : Z) (origin : vec3)
  (ave_bond : R) (rot : mat3) (x : vec3) :
  calc_displacement_centre s c origin ave_bond rot = Ok x <->
  exists centre_pos,
    Py.index (sites s) c = Some centre_pos /\
    x = Np.vecmat (Np.div (Np.sub centre_pos origin) ave_bond) rot.
Proof.
  unfold calc_displacement_centre. split.
  - intro H. inv_bind H. apply getitem_Ok in Ha. injection H as <-.
    exists a. now rewrite matvec_eye3.
  - intros (p & Hp & ->). apply getitem_Ok in Hp. rewrite Hp. simpl.
    now rewrite matvec_eye3.
Qed.

Lemma irrep_sums_length (basis : BasisTable) (squared : list R) :
  forall (irreps : list string) (count : nat) (sums : list R),
    irrep_sums basis irreps squared count = Ok sums -> length sums = length irreps.
Proof.
  induction irreps as [|k irreps IH]; simpl; intros count sums H.
  - injection H as <-. reflexivity.
  - inv_bind H. inv_bind H. injection H as <-. simpl. f_equal. eauto.
Qed.

Lemma irrep_average_Ok (basis : BasisTable) (proj amps : list R) :
  irrep_average basis proj = Ok amps ->
  Forall (fun a => 0 <= a) amps /\ length amps = (length (Py.keys basis) - 3)%nat.
Proof.
  unfold irrep_average. intro H. inv_bind H. injection H as <-.
  apply irrep_sums_length in Ha. split.
  - assert (Hall : Forall (fun r => 0 <= r) (map sqrt a)).
    { rewrite Forall_map. apply Forall_forall. intros x _. apply sqrt_pos. }
    rewrite <- (firstn_skipn 3 (map sqrt a)) in Hall.
    apply Forall_app in Hall. tauto.
  - change (length (skipn 3 (map sqrt a)) = (length (Py.keys basis) - 3)%nat).
    now rewrite length_skipn, length_map, Ha.
Qed.

(** No stage of the analysis can end in [CoordinationError]. *)

Lemma uncoordinated_bind {A B : Type} (c : result A) (k : A -> result B) :
  uncoordinated c -> (forall a, uncoordinated (k a)) -> uncoordinated (bind c k).
Proof.
  intros Hc Hk. destruct c as [a|e]; simpl; [apply Hk|].
  unfold uncoordinated in *. congruence.
Qed.

Lemma uncoordinated_raising {A : Type} (o : option A) : uncoordinated (raising o).
Proof.
  destruct o; discriminate.
Qed.

Lemma uncoordinated_Ok {A : Type} (a : A) : uncoordinated (Ok a).
Proof.
  discriminate.
Qed.

Lemma uncoordinated_mapM {A B : Type} (f : A -> result B) (l : list A) :
  (forall x, uncoordinated (f x)) -> uncoordinated (mapM f l).
Proof.
  intro Hf. induction l as [|x l IH]; simpl.
  - discriminate.
  - apply uncoordinated_bind; [apply Hf|]. intro y.
    apply uncoordinated_bind; [exact IH|]. discriminate.
Qed.

Lemma uncoordinated_neighbour_rows (s : Structure) (images : list image_t)
  (idx : list Z) : forall i, uncoordinated (neighbour_rows s images i idx).
Proof.
  induction idx as [|site idx IH]; simpl; intro i.
  - discriminate.
  - repeat (apply uncoordinated_bind;
            [try apply uncoordinated_raising; try apply IH | intro]).
    discriminate.
Qed.

Lemma uncoordinated_irrep_sums (basis : BasisTable) (squared : list R)
  (irreps : list string) : forall count, uncoordinated (irrep_sums basis irreps squared count).
Proof.
  induction irreps as [|k irreps IH]; simpl; intro count.
  - discriminate.
  - repeat (apply uncoordinated_bind;
            [try apply uncoordinated_raising; try apply IH | intro]).
    discriminate.
Qed.

Create HintDb stages.

#[local] Hint Resolve uncoordinated_raising uncoordinated_Ok uncoordinated_mapM
  uncoordinated_neighbour_rows uncoordinated_irrep_sums : stages.

Ltac stage_by_stage :=
  repeat first
    [ apply uncoordinated_bind; [| intro]
    | solve [eauto with stages]
    | match goal with
      | |- uncoordinated (match ?x with _ => _ end) => destruct x
      | |- uncoordinated (if ?b then _ else _) => destruct b
      end
    | discriminate ].

Lemma coordination_error_unreachable (ext : External) (s : Structure) (c : Z) :
  uncoordinated (calc_distortions_from_struct_octahedron_withcentre ext s c).
Proof.
  unfold calc_distortions_from_struct_octahedron_withcentre.
  apply uncoordinated_bind.
  { unfold read_basis. destruct (json_load_basis ext); discriminate. }
  intro basis.
  apply uncoordinated_bind.
  { unfold collect_irrep_distortions, Py.dict_getitem. stage_by_stage. }
  intro rows.
  apply uncoordinated_bind.
  { rewrite nearest_neighbours_eq. stage_by_stage. }
  intro shell.
  apply uncoordinated_bind.
  { unfold neighbour_coords. apply uncoordinated_mapM. intro d.
    unfold Py.getitem. stage_by_stage. }
  intro positions.
  apply uncoordinated_bind.
  { unfold shell_frame. destruct positions; discriminate. }
  intros [origin ave_bond].
  apply uncoordinated_bind.
  { unfold construct_molecule. stage_by_stage. }
  intro mol.
  apply uncoordinated_bind.
  { discriminate. }
  intro ideal.
  apply uncoordinated_bind.
  { unfold match_molecules, apply_match, Py.getitem. stage_by_stage. }
  intros [[aligned rot] tr].
  apply uncoordinated_bind.
  { unfold calc_displacement, Np.sub_rows, Np.tensordot1. stage_by_stage. }
  intro proj.
  apply uncoordinated_bind.
  { unfold calc_displacement_centre, Py.getitem. stage_by_stage. }
  intro centre.
  apply uncoordinated_bind.
  { unfold irrep_average. stage_by_stage. }
  intro amps. discriminate.
Qed.

(** ** Molecule construction *)

Lemma index_of_nat {A : Type} (l : list A) (n : nat) :
  Py.index l (Z.of_nat n) = nth_error l n.
Proof.
  unfold Py.index.
  destruct (0 <=? Z.of_nat n)%Z eqn:E.
  - now rewrite Nat2Z.id.
  - apply Z.leb_gt in E. lia.
Qed.

Lemma neighbour_coords_located (s : Structure) (shell : list NeighborCandidate)
  (positions : list vec3) :
  neighbour_coords s shell = Ok positions <-> located s shell positions.
Proof.
  unfold neighbour_coords, located. rewrite mapM_Ok_Forall2.
  split; intro H; (eapply Forall2_impl; [|exact H]); clear H; intros d p H.
  - inv_bind H. apply getitem_Ok in Ha. injection H as <-. now exists a.
  - destruct H as (site & Hs & ->). apply getitem_Ok in Hs. now rewrite Hs.
Qed.

(** [construct_molecule] recomputes, from the site indices and the images,
    the coordinates that [temp_coords] already holds. *)
Lemma neighbour_rows_located (s : Structure) (shell : list NeighborCandidate)
  (positions : list vec3) :
  located s shell positions ->
  forall pre : list image_t,
    neighbour_rows s (pre ++ map image shell) (length pre) (map site_index shell)
    = Ok positions.
Proof.
  induction 1 as [|d p shell positions (site & Hs & ->) _ IH]; intro pre; simpl.
  - reflexivity.
  - apply getitem_Ok in Hs. rewrite Hs. simpl.
    unfold Py.getitem at 1. rewrite index_of_nat, nth_error_app2 by lia.
    rewrite Nat.sub_diag. simpl.
    specialize (IH (pre ++ [image d])).
    rewrite <- app_assoc, length_app, Nat.add_comm in IH. simpl in IH.
    rewrite IH. reflexivity.
Qed.

Lemma construct_molecule_located (s : Structure) (centre : Z)
  (shell : list NeighborCandidate) (positions : list vec3) (ave_bond : R)
  (origin : vec3) :
  shell <> [] -> located s shell positions ->
  construct_molecule s centre (map site_index shell) ave_bond (map image shell) origin
  = Ok (Np.zeros3 :: map (fun p => Np.div (Np.sub p origin) ave_bond) positions).
Proof.
  intros Hne Hloc. unfold construct_molecule.
  pose proof (neighbour_rows_located s shell positions Hloc []) as Hrows.
  simpl in Hrows. rewrite Hrows. simpl.
  pose proof (Forall2_length Hloc) as Hlen.
  destruct positions as [|p positions].
  - destruct shell; [congruence | discriminate].
  - rewrite length_map, Hlen, Nat.eqb_refl. reflexivity.
Qed.

Lemma shell_frame_nonempty (positions : list vec3) :
  positions <> [] ->
  shell_frame positions =
  Ok (Np.mean_axis0 positions,
      Np.mean (map (fun p => distance p (Np.mean_axis0 positions)) positions)).
Proof.
  intro Hne. unfold shell_frame. destruct positions; [congruence|].
  rewrite map_map. reflexivity.
Qed.

(** ** A regular shell: centroid, mean bond and normalised points *)

Lemma sum_axis0_perm (l l' : list vec3) :
  Permutation l l' -> Np.sum_axis0 l = Np.sum_axis0 l'.
Proof.
  induction 1 as [|x l l' _ IH|x y l|l l' l'' _ IH1 _ IH2]; simpl.
  - reflexivity.
  - now rewrite IH.
  - generalize (Np.sum_axis0 l). intro t. vec_crush. by_components; ring.
  - congruence.
Qed.

Lemma sum_axis0_vertex (c : vec3) (bond : R) (dirs : list vec3) :
  Np.sum_axis0 (map (vertex c bond) dirs) =
  Np.add (scaled (INR (length dirs)) c) (scaled bond (Np.sum_axis0 dirs)).
Proof.
  induction dirs as [|e dirs IH].
  - simpl. vec_crush. by_components; ring.
  - cbn [map Np.sum_axis0 fold_right length]. fold (Np.sum_axis0 dirs).
    fold (Np.sum_axis0 (map (vertex c bond) dirs)).
    rewrite IH, S_INR. generalize (Np.sum_axis0 dirs), (INR (length dirs)).
    intros t n. vec_crush. by_components; ring.
Qed.

Lemma mean_axis0_vertex (c : vec3) (bond : R) (dirs : list vec3) :
  dirs <> [] -> Np.sum_axis0 dirs = Np.zeros3 ->
  Np.mean_axis0 (map (vertex c bond) dirs) = c.
Proof.
  intros Hne Hsum. unfold Np.mean_axis0.
  rewrite sum_axis0_vertex, Hsum, length_map.
  assert (Hn : INR (length dirs) <> 0).
  { apply not_0_INR. destruct dirs; [congruence | discriminate]. }
  revert Hn. generalize (INR (length dirs)). intros n Hn.
  vec_crush. by_components; field; assumption.
Qed.

Lemma distance_vertex (c : vec3) (bond : R) (e : vec3) :
  0 < bond -> Np.sumsq e = 1 -> distance (vertex c bond e) c = bond.
Proof.
  intros Hb He. unfold distance, norm.
  replace (Np.sumsq (Np.sub (vertex c bond e) c)) with (bond * bond * Np.sumsq e)
    by (vec_crush; ring).
  rewrite He, Rmult_1_r. apply sqrt_square. lra.
Qed.

Lemma normalised_vertex (c : vec3) (bond : R) (e : vec3) :
  0 < bond -> Np.div (Np.sub (vertex c bond e) c) bond = e.
Proof.
  intro Hb. vec_crush. by_components; field; lra.
Qed.

Lemma sum_constant (k : R) {A : Type} (l : list A) :
  Np.sum (map (fun _ => k) l) = INR (length l) * k.
Proof.
  induction l as [|x l IH].
  - simpl. ring.
  - cbn [map Np.sum fold_right length]. fold (Np.sum (map (fun _ => k) l)).
    rewrite IH, S_INR. ring.
Qed.

Lemma mean_bond_vertex (c : vec3) (bond : R) (dirs : list vec3) :
  0 < bond -> dirs <> [] -> Forall (fun e => Np.sumsq e = 1) dirs ->
  Np.mean (map (fun p => distance p c) (map (vertex c bond) dirs)) = bond.
Proof.
  intros Hb Hne Hunit. rewrite map_map.
  rewrite (map_ext_in _ (fun _ => bond)).
  - unfold Np.mean. rewrite sum_constant, length_map.
    assert (Hn : INR (length dirs) <> 0).
    { apply not_0_INR. destruct dirs; [congruence | discriminate]. }
    field. assumption.
  - intros e He. rewrite Forall_forall in Hunit. apply distance_vertex; auto.
Qed.

Lemma ideal_coords_centred : Np.sum_axis0 ideal_coords = Np.zeros3.
Proof.
  unfold ideal_coords, Np.zeros3. simpl. by_components; ring.
Qed.

Lemma ideal_coords_unit : Forall (fun e => Np.sumsq e = 1) ideal_coords.
Proof.
  unfold ideal_coords. repeat constructor; simpl; ring.
Qed.

(** The molecule built on a regular shell is the origin followed by the
    unit directions of the neighbours, whatever the bond length. *)
Lemma regular_shell_molecule (s : Structure) (centre : Z)
  (shell : list NeighborCandidate) (c : vec3) (bond : R) (dirs : list vec3) :
  0 < bond -> Permutation dirs ideal_coords ->
  located s shell (map (vertex c bond) dirs) ->
  shell_frame (map (vertex c bond) dirs) = Ok (c, bond) /\
  construct_molecule s centre (map site_index shell) bond (map image shell) c
  = Ok (Np.zeros3 :: dirs).
Proof.
  intros Hb Hperm Hloc.
  assert (Hne : dirs <> []).
  { intros ->. apply Permutation_nil in Hperm. discriminate. }
  assert (Hsum : Np.sum_axis0 dirs = Np.zeros3).
  { rewrite (sum_axis0_perm _ _ Hperm). apply ideal_coords_centred. }
  assert (Hunit : Forall (fun e => Np.sumsq e = 1) dirs).
  { eapply Permutation_Forall; [symmetry; exact Hperm | apply ideal_coords_unit]. }
  split.
  - rewrite shell_frame_nonempty by (destruct dirs; [congruence | discriminate]).
    rewrite mean_axis0_vertex by assumption.
    now rewrite mean_bond_vertex.
  - rewrite (construct_molecule_located s centre shell (map (vertex c bond) dirs)).
    + rewrite map_map, (map_ext_in _ (fun e => e)), map_id; [reflexivity|].
      intros e _. now apply normalised_vertex.
    + intros ->. inversion Hloc as [E|]. destruct dirs; [congruence | discriminate].
    + assumption.
Qed.

(** ** Relabelling by an index list *)

Lemma mapM_map {A B C : Type} (f : B -> result C) (g : A -> B) (l : list A) :
  mapM f (map g l) = mapM (fun x => f (g x)) l.
Proof.
  induction l as [|x l IH]; simpl; [reflexivity | now rewrite IH].
Qed.

Lemma mapM_ext_in {A B : Type} (f g : A -> result B) (l : list A) :
  (forall x, In x l -> f x = g x) -> mapM f l = mapM g l.
Proof.
  induction l as [|x l IH]; simpl; intro H; [reflexivity|].
  rewrite (H x) by now left. rewrite IH; [reflexivity|].
  intros y Hy. apply H. now right.
Qed.

Lemma mapM_nth_error_seq {A : Type} (l pre : list A) :
  mapM (fun j => raising (nth_error (pre ++ l) j)) (seq (length pre) (length l))
  = Ok l.
Proof.
  revert pre; induction l as [|x l IH]; intro pre; simpl.
  - reflexivity.
  - rewrite nth_error_app2, Nat.sub_diag by lia. simpl.
    specialize (IH (pre ++ [x])).
    rewrite <- app_assoc, length_app, Nat.add_comm in IH. simpl in IH.
    now rewrite IH.
Qed.

(** Taking the items of [l] in their own order gives [l] back. *)
Lemma getitem_iota {A : Type} (l : list A) :
  mapM (Py.getitem l) (map Z.of_nat (seq 0 (length l))) = Ok l.
Proof.
  rewrite mapM_map.
  rewrite (mapM_ext_in _ (fun j => raising (nth_error l j))).
  - apply (mapM_nth_error_seq l []).
  - intros j _. unfold Py.getitem. now rewrite index_of_nat.
Qed.

(** A permutation of a list is reached by an index list that permutes
    [0 .. n-1]. *)
Lemma permutation_indices {A : Type} (l l' : list A) :
  Permutation l l' ->
  exists inds, index_permutation inds (length l) /\ mapM (Py.getitem l) inds = Ok l'.
Proof.
  intro P. apply Permutation_nth_error in P. destruct P as (Hlen & f & Hinj & Hf).
  exists (map Z.of_nat (map f (seq 0 (length l)))). split.
  - unfold index_permutation. apply Permutation_map.
    apply nat_bijection_Permutation; [|assumption].
    intros j Hj. apply nth_error_Some. rewrite <- Hf.
    apply nth_error_Some. lia.
  - rewrite map_map, mapM_map.
    rewrite (mapM_ext_in _ (fun j => raising (nth_error l' j))).
    + rewrite Hlen. apply (mapM_nth_error_seq l' []).
    + intros j _. unfold Py.getitem. now rewrite index_of_nat, Hf.
Qed.

(** ** The squared residual *)

Lemma residual_nonneg (a b : Molecule) : 0 <= residual a b.
Proof.
  unfold residual. revert b; induction a as [|x a IH]; intros [|y b]; simpl;
    try lra.
  pose proof (sumsq_nonneg (Np.sub x y)). specialize (IH b). lra.
Qed.

Lemma residual_refl (a : Molecule) : residual a a = 0.
Proof.
  unfold residual. induction a as [|x a IH]; simpl; [reflexivity|].
  rewrite IH. destruct x as [[x1 x2] x3]. simpl. ring.
Qed.

Lemma residual_zero (a b : Molecule) :
  length a = length b -> residual a b <= 0 -> a = b.
Proof.
  unfold residual. revert b; induction a as [|x a IH]; intros [|y b] Hlen Hres;
    try discriminate; [reflexivity|].
  simpl in Hres.
  pose proof (sumsq_nonneg (Np.sub x y)) as Hx.
  pose proof (residual_nonneg a b) as Hr. unfold residual in Hr.
  f_equal.
  - apply sumsq_sub_zero. lra.
  - apply IH; [now injection Hlen | lra].
Qed.

(** An optimal answer of the matcher superimposes exactly whatever can be
    superimposed exactly by a relabelling alone. *)
Lemma optimal_match_exact (reference p : Molecule) (inds : list Z) (u : mat3)
  (v : vec3) :
  Permutation p reference -> optimal_match reference p (inds, u, v) ->
  apply_match p inds u v = Ok reference.
Proof.
  intros Hperm (aligned & Happly & Hlen & Hopt).
  destruct (permutation_indices p reference Hperm) as (inds' & Hinds & Htake).
  assert (Hid : apply_match p inds' Np.eye3 Np.zeros3 = Ok reference).
  { unfold apply_match.
    rewrite (map_ext _ (fun x => x)) by apply symmop_identity.
    now rewrite map_id. }
  specialize (Hopt inds' Np.eye3 Np.zeros3 reference Hinds orthogonal_eye3 Hid).
  rewrite residual_refl in Hopt.
  rewrite Happly. f_equal. now apply residual_zero.
Qed.

(** ** Projection of a vanishing displacement *)

Lemma dot_zeros (b d : list R) : Forall (fun x => x = 0) d -> Np.dot b d = 0.
Proof.
  intro H. revert b; induction H as [|x d -> _ IH]; intros [|y b]; simpl;
    try reflexivity.
  rewrite IH. ring.
Qed.

Lemma spec_irrep_amplitude_zeros (d : list R) (vecs : list (list R)) :
  Forall (fun x => x = 0) d -> spec_irrep_amplitude d vecs = 0.
Proof.
  intro H. unfold spec_irrep_amplitude.
  replace (Np.sum _) with 0; [apply sqrt_0|].
  induction vecs as [|b vecs IH]; simpl; [reflexivity|].
  rewrite <- IH, (dot_zeros b d H). unfold Rsqr. ring.
Qed.

Lemma ideal_displacement_zeros :
  Forall (fun x => x = 0) (spec_displacement ideal_molecule ideal_molecule).
Proof.
  unfold spec_displacement, ideal_molecule, ideal_coords. simpl.
  repeat constructor; ring.
Qed.

Lemma ideal_displacement_length :
  length (spec_displacement ideal_molecule ideal_molecule) = 18%nat.
Proof.
  reflexivity.
Qed.

(** ** The analysis of a regular octahedron *)

Lemma centre_at_centroid (c : vec3) (bond : R) (u : mat3) :
  sqrt (Np.sumsq (Np.matvec Np.eye3 (Np.vecmat (Np.div (Np.sub c c) bond) u))) = 0.
Proof.
  rewrite matvec_eye3.
  replace (Np.sumsq _) with 0; [apply sqrt_0|].
  vec_crush. unfold Rdiv. ring.
Qed.

Lemma four_zero_amplitudes (basis : BasisTable) (d : list R) :
  length (Py.keys basis) = 7%nat -> Forall (fun x => x = 0) d ->
  skipn 3 (map (fun k => spec_irrep_amplitude d (irrep_vectors basis k))
               (Py.keys basis)) = [0; 0; 0; 0].
Proof.
  intros Hlen Hd.
  rewrite (map_ext _ (fun _ => 0))
    by (intro k; now apply spec_irrep_amplitude_zeros).
  destruct (Py.keys basis) as [|k1 [|k2 [|k3 [|k4 [|k5 [|k6 [|k7 [|k8 ks]]]]]]]];
    try discriminate.
  reflexivity.
Qed.

Lemma regular_octahedron_run (ext : External) (s : Structure) (c : Z)
  (basis : BasisTable) (shell : list NeighborCandidate) (centre_pos : vec3)
  (bond : R) (dirs : list vec3) (inds : list Z) (u : mat3) (v : vec3) :
  json_load_basis ext = Some basis ->
  length (Py.keys basis) = 7%nat ->
  well_formed_basis 18 basis ->
  nearest_neighbours ext s c = Ok shell ->
  0 < bond ->
  Permutation dirs ideal_coords ->
  located s shell (map (vertex centre_pos bond) dirs) ->
  Py.index (sites s) c = Some centre_pos ->
  order_match ext ideal_molecule (Np.zeros3 :: dirs) = Some (inds, u, v) ->
  optimal_match ideal_molecule (Np.zeros3 :: dirs) (inds, u, v) ->
  calc_distortions_from_struct_octahedron_withcentre ext s c = Ok [0; 0; 0; 0; 0].
Proof.
  intros Hload Hseven Hwf Hshell Hbond Hperm Hloc Hcentre Hmatch Hopt.
  destruct (regular_shell_molecule s c shell centre_pos bond dirs Hbond Hperm Hloc)
    as [Hframe Hmol].
  unfold calc_distortions_from_struct_octahedron_withcentre, read_basis.
  rewrite Hload. cbn [bind].
  rewrite collect_irrep_distortions_rows. cbn [bind].
  rewrite Hshell. cbn [bind].
  apply neighbour_coords_located in Hloc. rewrite Hloc. cbn [bind].
  rewrite Hframe. cbn [bind].
  rewrite Hmol. cbn [bind].
  change (construct_molecule_ideal ideal_coords
            (repeat "H"%string (length (Np.zeros3 :: dirs))))
    with (Ok ideal_molecule).
  cbn [bind]. unfold match_molecules. rewrite Hmatch. cbn [bind raising].
  rewrite (optimal_match_exact ideal_molecule (Np.zeros3 :: dirs) inds u v)
    by (try assumption; now constructor).
  cbn [bind].
  rewrite calc_displacement_projections
    by (try reflexivity; now rewrite ideal_displacement_length).
  cbn [bind].
  unfold calc_displacement_centre. apply getitem_Ok in Hcentre.
  rewrite Hcentre. cbn [bind].
  rewrite centre_at_centroid, irrep_average_spec. cbn [bind].
  rewrite four_zero_amplitudes by (try assumption; apply ideal_displacement_zeros).
  reflexivity.
Qed.

(** ** The example inputs *)

Ltac sort_by_weight :=
  unfold Py.sorted;
  repeat (cbn [fold_right Py.insert_by];
          match goal with
          | |- context [Rlt_dec ?a ?b] =>
              let H := fresh "H" in
              destruct (Rlt_dec a b) as [H|H];
              cbn [weight candidate] in H; try (exfalso; lra); clear H
          end).

Lemma perovskite_sorted :
  Py.sorted (fun x => - weight x) perovskite_nn =
  perovskite_shell ++ [candidate 0 (1, 0, 0)%Z (1 / 4)].
Proof.
  unfold perovskite_nn, perovskite_shell. sort_by_weight. reflexivity.
Qed.

Lemma perovskite_selected :
  nearest_neighbours perovskite_ext perovskite 0 = Ok perovskite_shell.
Proof.
  rewrite nearest_neighbours_eq. cbn [perovskite_ext get_nn_info raising bind].
  rewrite perovskite_sorted. reflexivity.
Qed.

Lemma vacancy_selected :
  nearest_neighbours vacancy_ext perovskite 0 = Ok vacancy_shell.
Proof.
  rewrite nearest_neighbours_eq. cbn [vacancy_ext get_nn_info raising bind].
  unfold vacancy_shell, perovskite_shell. cbn [firstn].
  sort_by_weight. reflexivity.
Qed.

Ltac locate_candidates :=
  repeat constructor;
  (eexists; split; [reflexivity|]);
  unfold neighbour_position, vertex, scaled, Np.add, cubic; cbn;
  by_components; lra.

Lemma perovskite_located :
  located perovskite perovskite_shell (map (vertex (1, 1, 1) 2) ideal_coords).
Proof.
  unfold located, perovskite_shell, ideal_coords. cbn [map].
  locate_candidates.
Qed.

Lemma example_basis_rows :
  basis_rows example_basis = map unit_vector (seq 0 18).
Proof.
  reflexivity.
Qed.

Lemma example_basis_well_formed : well_formed_basis 18 example_basis.
Proof.
  unfold well_formed_basis. rewrite example_basis_rows. split.
  - discriminate.
  - apply Forall_forall. intros b Hb. apply in_map_iff in Hb.
    destruct Hb as (k & <- & _). unfold unit_vector.
    now rewrite length_map, length_seq.
Qed.

Lemma identity_matcher_optimal (m : Molecule) :
  optimal_match m m (map Z.of_nat (seq 0 (length m)), Np.eye3, Np.zeros3).
Proof.
  exists m. repeat split.
  - unfold apply_match.
    rewrite (map_ext _ (fun x => x)) by apply symmop_identity.
    rewrite map_id. apply getitem_iota.
  - intros. rewrite residual_refl. apply residual_nonneg.
Qed.

Lemma perovskite_run :
  calc_distortions_from_struct_octahedron_withcentre perovskite_ext perovskite 0
  = Ok [0; 0; 0; 0; 0].
Proof.
  apply (regular_octahedron_run perovskite_ext perovskite 0 example_basis
           perovskite_shell (1, 1, 1) 2 ideal_coords
           (map Z.of_nat (seq 0 7)) Np.eye3 Np.zeros3).
  - reflexivity.
  - reflexivity.
  - exact example_basis_well_formed.
  - exact perovskite_selected.
  - lra.
  - reflexivity.
  - exact perovskite_located.
  - reflexivity.
  - reflexivity.
  - exact (identity_matcher_optimal ideal_molecule).
Qed.

Lemma vacancy_located :
  exists positions, length positions = 5%nat /\ located perovskite vacancy_shell positions.
Proof.
  exists (firstn 5 (map (vertex (1, 1, 1) 2) ideal_coords)). split; [reflexivity|].
  unfold located, vacancy_shell, perovskite_shell, ideal_coords. cbn [map firstn].
  locate_candidates.
Qed.

(** With one vertex missing the analysis goes on past the neighbour stage,
    builds a molecule of six points and stops only when the matcher turns
    that molecule down. *)
Lemma vacancy_run :
  calc_distortions_from_struct_octahedron_withcentre vacancy_ext perovskite 0
  = Fail Uncaught.
Proof.
  destruct vacancy_located as (positions & Hlen & Hloc).
  unfold calc_distortions_from_struct_octahedron_withcentre.
  cbn [read_basis vacancy_ext json_load_basis bind].
  rewrite collect_irrep_distortions_rows. cbn [bind].
  rewrite vacancy_selected. cbn [bind].
  rewrite (proj2 (neighbour_coords_located _ _ _) Hloc). cbn [bind].
  rewrite shell_frame_nonempty by (destruct positions; discriminate). cbn [bind].
  rewrite (construct_molecule_located _ _ _ positions) by (assumption || discriminate).
  cbn [bind construct_molecule_ideal ideal_coords].
  unfold match_molecules. cbn [order_match vacancy_ext].
  unfold identity_matcher. cbn [length]. rewrite length_map, Hlen. reflexivity.
Qed.

(** * The claims *)

(** C1 (a defect of the code).  The specification wants a structure with
    fewer than six neighbour candidates to end in [CoordinationError].  The
    code tests the length of [ideal_coords], which is always 6, instead of
    the number of candidates it found: with the five candidates of
    [vacancy_shell] the neighbour stage succeeds with a shell of five, the
    run ends in an uncaught exception of the matcher, and no input at all
    can end in [CoordinationError]. *)
Theorem shortfall_is_not_reported :
  get_nn_info vacancy_ext perovskite 0 = Some vacancy_shell /\
  length vacancy_shell = 5%nat /\
  nearest_neighbours vacancy_ext perovskite 0 = Ok vacancy_shell /\
  calc_distortions_from_struct_octahedron_withcentre vacancy_ext perovskite 0
  = Fail Uncaught /\
  forall (ext : External) (s : Structure) (c : Z),
    calc_distortions_from_struct_octahedron_withcentre ext s c
    <> Fail CoordinationError.
Proof.
  repeat split.
  - exact vacancy_selected.
  - exact vacancy_run.
  - exact coordination_error_unreachable.
Qed.

(** C2.  For an aligned molecule and an ideal molecule with the same number
    of points and a basis table whose vectors have the dimension of the
    displacement vector, the code's projection followed by its averaging
    loop yields the amplitudes of the specification: the displacement is
    the flattened difference without its first three components, each
    irrep, in the order of the table, gets the square root of the sum of
    its squared projections, and the first three amplitudes are dropped. *)
Theorem reported_amplitudes_as_specified (aligned ideal : Molecule)
  (basis : BasisTable) :
  length aligned = length ideal ->
  well_formed_basis (length (spec_displacement aligned ideal)) basis ->
  exists irrep_distortions projections,
    collect_irrep_distortions basis = Ok irrep_distortions /\
    calc_displacement aligned ideal irrep_distortions = Ok projections /\
    irrep_average basis projections = Ok (spec_amplitudes aligned ideal basis).
Proof.
  intros Hlen Hwf.
  exists (basis_rows basis),
    (map (fun row => Np.dot row (spec_displacement aligned ideal)) (basis_rows basis)).
  split; [apply collect_irrep_distortions_rows|].
  split; [now apply calc_displacement_projections|].
  apply irrep_average_spec.
Qed.

Lemma reported_amplitudes_as_specified_witness :
  length elongated = length ideal_molecule /\
  well_formed_basis (length (spec_displacement elongated ideal_molecule)) example_basis /\
  exists irrep_distortions projections,
    collect_irrep_distortions example_basis = Ok irrep_distortions /\
    calc_displacement elongated ideal_molecule irrep_distortions = Ok projections /\
    irrep_average example_basis projections
    = Ok (spec_amplitudes elongated ideal_molecule example_basis).
Proof.
  split; [reflexivity|].
  split; [exact example_basis_well_formed|].
  apply (reported_amplitudes_as_specified elongated ideal_molecule example_basis).
  - reflexivity.
  - exact example_basis_well_formed.
Defined.

(** C3.  For a shell of six candidates that name sites of the structure,
    the constructed molecule has seven points: point 0 is the zero vector
    and point i+1 is (position i - molecule_origin) / ave_bond, where a
    position is the site's coordinates plus the Cartesian image offset,
    molecule_origin is the mean of the six positions (the centre atom plays
    no part in it) and ave_bond is the mean distance from the positions to
    molecule_origin. *)
Theorem constructed_molecule_points (s : Structure) (centre : Z)
  (shell : list NeighborCandidate) (positions : list vec3) :
  length shell = 6%nat ->
  located s shell positions ->
  let molecule_origin := Np.mean_axis0 positions in
  let ave_bond := Np.mean (map (fun p => distance p molecule_origin) positions) in
  exists mol,
    neighbour_coords s shell = Ok positions /\
    shell_frame positions = Ok (molecule_origin, ave_bond) /\
    construct_molecule s centre (map site_index shell) ave_bond (map image shell)
      molecule_origin = Ok mol /\
    length mol = 7%nat /\
    nth_error mol 0 = Some Np.zeros3 /\
    forall i p, nth_error positions i = Some p ->
                nth_error mol (S i)
                = Some (Np.div (Np.sub p molecule_origin) ave_bond).
Proof.
  intros Hsix Hloc molecule_origin ave_bond.
  assert (Hne : shell <> []) by (intros ->; discriminate).
  pose proof (Forall2_length Hloc) as Hlen.
  exists (Np.zeros3 :: map (fun p => Np.div (Np.sub p molecule_origin) ave_bond)
                         positions).
  repeat split.
  - now apply neighbour_coords_located.
  - apply shell_frame_nonempty. intros ->. rewrite Hsix in Hlen. discriminate.
  - now apply construct_molecule_located.
  - simpl. rewrite length_map. congruence.
  - intros i p Hp. simpl. rewrite nth_error_map, Hp. reflexivity.
Qed.

Lemma constructed_molecule_points_witness :
  length perovskite_shell = 6%nat /\
  located perovskite perovskite_shell (map (vertex (1, 1, 1) 2) ideal_coords) /\
  let positions := map (vertex (1, 1, 1) 2) ideal_coords in
  let molecule_origin := Np.mean_axis0 positions in
  let ave_bond := Np.mean (map (fun p => distance p molecule_origin) positions) in
  exists mol,
    neighbour_coords perovskite perovskite_shell = Ok positions /\
    shell_frame positions = Ok (molecule_origin, ave_bond) /\
    construct_molecule perovskite 0 (map site_index perovskite_shell) ave_bond
      (map image perovskite_shell) molecule_origin = Ok mol /\
    length mol = 7%nat /\
    nth_error mol 0 = Some Np.zeros3 /\
    forall i p, nth_error positions i = Some p ->
                nth_error mol (S i)
                = Some (Np.div (Np.sub p molecule_origin) ave_bond).
Proof.
  split; [reflexivity|].
  split; [exact perovskite_located|].
  apply (constructed_molecule_points perovskite 0 perovskite_shell).
  - reflexivity.
  - exact perovskite_located.
Defined.

(** C4.  A regular octahedron: the six selected neighbours sit at the
    centre atom's position plus a positive bond length times the six ideal
    unit-axis directions, in any order.  Provided the basis table has its
    seven irreps with vectors of eighteen components and the matcher's
    answer is optimal for the molecule it is given, the analysis returns
    [0, 0, 0, 0, 0]. *)
Theorem regular_octahedron_all_zero (ext : External) (s : Structure) (c : Z)
  (basis : BasisTable) (shell : list NeighborCandidate) (centre_pos : vec3)
  (bond : R) (dirs : list vec3) (inds : list Z) (u : mat3) (v : vec3) :
  json_load_basis ext = Some basis ->
  length (Py.keys basis) = 7%nat ->
  well_formed_basis 18 basis ->
  nearest_neighbours ext s c = Ok shell ->
  0 < bond ->
  Permutation dirs ideal_coords ->
  located s shell (map (vertex centre_pos bond) dirs) ->
  Py.index (sites s) c = Some centre_pos ->
  order_match ext ideal_molecule (Np.zeros3 :: dirs) = Some (inds, u, v) ->
  optimal_match ideal_molecule (Np.zeros3 :: dirs) (inds, u, v) ->
  calc_distortions_from_struct_octahedron_withcentre ext s c = Ok [0; 0; 0; 0; 0].
Proof.
  apply regular_octahedron_run.
Qed.

Lemma regular_octahedron_all_zero_witness :
  calc_distortions_from_struct_octahedron_withcentre perovskite_ext perovskite 0
  = Ok [0; 0; 0; 0; 0].
Proof.
  apply (regular_octahedron_all_zero perovskite_ext perovskite 0 example_basis
           perovskite_shell (1, 1, 1) 2 ideal_coords
           (map Z.of_nat (seq 0 7)) Np.eye3 Np.zeros3).
  - reflexivity.
  - reflexivity.
  - exact example_basis_well_formed.
  - exact perovskite_selected.
  - lra.
  - reflexivity.
  - exact perovskite_located.
  - reflexivity.
  - reflexivity.
  - exact (identity_matcher_optimal ideal_molecule).
Defined.

(** C5.  Whenever the analysis returns a vector, that vector is the irrep
    amplitudes followed by one last entry, and the last entry is the
    Euclidean norm of (centre position - molecule_origin) / ave_bond
    multiplied by the rotation matrix the alignment returned, with
    molecule_origin and ave_bond those of the neighbour shell. *)
Theorem central_displacement_is_last (ext : External) (s : Structure) (c : Z)
  (v : list R) :
  calc_distortions_from_struct_octahedron_withcentre ext s c = Ok v ->
  exists basis shell positions origin ave_bond mol aligned rot tr proj amps
         centre_pos,
    read_basis ext = Ok basis /\
    nearest_neighbours ext s c = Ok shell /\
    neighbour_coords s shell = Ok positions /\
    shell_frame positions = Ok (origin, ave_bond) /\
    construct_molecule s c (map site_index shell) ave_bond (map image shell) origin
      = Ok mol /\
    match_molecules ext mol ideal_molecule = Ok (aligned, rot, tr) /\
    calc_displacement aligned ideal_molecule (basis_rows basis) = Ok proj /\
    irrep_average basis proj = Ok amps /\
    Py.index (sites s) c = Some centre_pos /\
    v = amps ++ [norm (Np.vecmat (Np.div (Np.sub centre_pos origin) ave_bond) rot)].
Proof.
  intro H. apply withcentre_stages in H.
  destruct H as (basis & shell & positions & origin & ave_bond & mol & aligned
                 & rot & tr & proj & centre & amps & H1 & H2 & H3 & H4 & H5 & H6
                 & H7 & H8 & H9 & ->).
  apply calc_displacement_centre_Ok in H8. destruct H8 as (centre_pos & Hc & ->).
  exists basis, shell, positions, origin, ave_bond, mol, aligned, rot, tr, proj,
    amps, centre_pos.
  repeat split; assumption.
Qed.

Lemma central_displacement_is_last_witness :
  exists basis shell positions origin ave_bond mol aligned rot tr proj amps
         centre_pos,
    read_basis perovskite_ext = Ok basis /\
    nearest_neighbours perovskite_ext perovskite 0 = Ok shell /\
    neighbour_coords perovskite shell = Ok positions /\
    shell_frame positions = Ok (origin, ave_bond) /\
    construct_molecule perovskite 0 (map site_index shell) ave_bond
      (map image shell) origin = Ok mol /\
    match_molecules perovskite_ext mol ideal_molecule = Ok (aligned, rot, tr) /\
    calc_displacement aligned ideal_molecule (basis_rows basis) = Ok proj /\
    irrep_average basis proj = Ok amps /\
    Py.index (sites perovskite) 0 = Some centre_pos /\
    [0; 0; 0; 0; 0]
    = amps ++ [norm (Np.vecmat (Np.div (Np.sub centre_pos origin) ave_bond) rot)].
Proof.
  apply (central_displacement_is_last perovskite_ext perovskite 0).
  exact perovskite_run.
Defined.

(** C6.  The ideal reference molecule is the zero vector followed by the six
    signed unit-axis vectors in the order -x, -y, -z, +z, +y, +x. *)
Theorem ideal_reference_points (species : list string) :
  construct_molecule_ideal ideal_coords species =
  Ok [ (0, 0, 0); (-1, 0, 0); (0, -1, 0); (0, 0, -1); (0, 0, 1); (0, 1, 0);
       (1, 0, 0) ].
Proof.
  reflexivity.
Qed.

(** C7.  The candidates the neighbour query returns are put in descending
    order of weight and the first six of them (all of them when there are
    fewer) are the shell; every molecule the analysis goes on to build is
    built from that shell. *)
Theorem selector_takes_six_heaviest (ext : External) (s : Structure) (c : Z)
  (nn : list NeighborCandidate) :
  get_nn_info ext s c = Some nn ->
  exists ranked,
    Permutation ranked nn /\
    StronglySorted heavier ranked /\
    nearest_neighbours ext s c = Ok (firstn 6 ranked) /\
    length (firstn 6 ranked) = Nat.min 6 (length nn) /\
    forall v,
      calc_distortions_from_struct_octahedron_withcentre ext s c = Ok v ->
      exists positions origin ave_bond mol,
        located s (firstn 6 ranked) positions /\
        shell_frame positions = Ok (origin, ave_bond) /\
        construct_molecule s c (map site_index (firstn 6 ranked)) ave_bond
          (map image (firstn 6 ranked)) origin = Ok mol.
Proof.
  intro Hnn. exists (Py.sorted (fun x => - weight x) nn).
  assert (Hshell : nearest_neighbours ext s c
                   = Ok (firstn 6 (Py.sorted (fun x => - weight x) nn))).
  { rewrite nearest_neighbours_eq, Hnn. reflexivity. }
  split; [apply sorted_perm|].
  split; [apply sorted_by_weight_heavier|].
  split; [exact Hshell|].
  split.
  - rewrite length_firstn. f_equal. apply Permutation_length, sorted_perm.
  - intros v Hv. apply withcentre_stages in Hv.
    destruct Hv as (basis & shell & positions & origin & ave_bond & mol & aligned
                    & rot & tr & proj & centre & amps & _ & H2 & H3 & H4 & H5 & _).
    rewrite Hshell in H2. injection H2 as <-.
    exists positions, origin, ave_bond, mol.
    split; [now apply neighbour_coords_located|]. now split.
Qed.

Lemma selector_takes_six_heaviest_witness :
  get_nn_info perovskite_ext perovskite 0 = Some perovskite_nn /\
  exists ranked,
    Permutation ranked perovskite_nn /\
    StronglySorted heavier ranked /\
    nearest_neighbours perovskite_ext perovskite 0 = Ok (firstn 6 ranked) /\
    length (firstn 6 ranked) = Nat.min 6 (length perovskite_nn) /\
    forall v,
      calc_distortions_from_struct_octahedron_withcentre perovskite_ext perovskite 0
      = Ok v ->
      exists positions origin ave_bond mol,
        located perovskite (firstn 6 ranked) positions /\
        shell_frame positions = Ok (origin, ave_bond) /\
        construct_molecule perovskite 0 (map site_index (firstn 6 ranked)) ave_bond
          (map image (firstn 6 ranked)) origin = Ok mol.
Proof.
  split; [reflexivity|].
  apply (selector_takes_six_heaviest perovskite_ext perovskite 0 perovskite_nn).
  reflexivity.
Defined.

(** C8.  For an orthogonal rotation matrix the magnitude of the central
    displacement is the norm of (centre position - molecule_origin) /
    ave_bond itself: multiplying by the rotation does not change it. *)
Theorem rotation_keeps_central_displacement (s : Structure) (c : Z)
  (origin : vec3) (ave_bond : R) (rot : mat3) (centre_pos : vec3) :
  orthogonal rot ->
  Py.index (sites s) c = Some centre_pos ->
  exists rotated unrotated,
    calc_displacement_centre s c origin ave_bond rot = Ok rotated /\
    calc_displacement_centre s c origin ave_bond Np.eye3 = Ok unrotated /\
    unrotated = Np.div (Np.sub centre_pos origin) ave_bond /\
    sqrt (Np.sumsq rotated) = sqrt (Np.sumsq unrotated).
Proof.
  intros Hrot Hc.
  exists (Np.vecmat (Np.div (Np.sub centre_pos origin) ave_bond) rot),
    (Np.div (Np.sub centre_pos origin) ave_bond).
  split; [apply calc_displacement_centre_Ok; eauto|].
  split.
  - apply calc_displacement_centre_Ok. exists centre_pos. split; [assumption|].
    symmetry. generalize (Np.div (Np.sub centre_pos origin) ave_bond).
    intro x. vec_crush. by_components; ring.
  - split; [reflexivity|]. f_equal. now apply sumsq_vecmat_orthogonal.
Qed.

Lemma rotation_keeps_central_displacement_witness :
  orthogonal quarter_turn /\
  Py.index (sites perovskite) 0 = Some (1, 1, 1) /\
  exists rotated unrotated,
    calc_displacement_centre perovskite 0 (0, 0, 0) 2 quarter_turn = Ok rotated /\
    calc_displacement_centre perovskite 0 (0, 0, 0) 2 Np.eye3 = Ok unrotated /\
    unrotated = Np.div (Np.sub (1, 1, 1) (0, 0, 0)) 2 /\
    sqrt (Np.sumsq rotated) = sqrt (Np.sumsq unrotated).
Proof.
  assert (Hq : orthogonal quarter_turn).
  { split; unfold quarter_turn; vec_crush; by_components; ring. }
  split; [exact Hq|].
  split; [reflexivity|].
  apply (rotation_keeps_central_displacement perovskite 0 (0, 0, 0) 2 quarter_turn).
  - exact Hq.
  - reflexivity.
Defined.

(** C9.  Every entry of a vector the analysis returns, the irrep amplitudes
    and the central displacement alike, is greater than or equal to 0. *)
Theorem amplitudes_nonnegative (ext : External) (s : Structure) (c : Z)
  (v : list R) :
  calc_distortions_from_struct_octahedron_withcentre ext s c = Ok v ->
  Forall (fun a => 0 <= a) v.
Proof.
  intro H. apply withcentre_stages in H.
  destruct H as (basis & shell & positions & origin & ave_bond & mol & aligned
                 & rot & tr & proj & centre & amps & _ & _ & _ & _ & _ & _ & _ & _
                 & Hamps & ->).
  apply Forall_app. split.
  - now apply irrep_average_Ok in Hamps.
  - constructor; [apply sqrt_pos | constructor].
Qed.

Lemma amplitudes_nonnegative_witness :
  Forall (fun a => 0 <= a) [0; 0; 0; 0; 0].
Proof.
  apply (amplitudes_nonnegative perovskite_ext perovskite 0).
  exact perovskite_run.
Defined.

(** C10.  When the analysis with the centre returns [v], the analysis
    without it returns the first four entries of [v]; with the seven irreps
    of the basis table these are all of [v] but its last entry, the central
    displacement. *)
Theorem octahedron_drops_centre (ext : External) (s : Structure) (c : Z)
  (v : list R) :
  calc_distortions_from_struct_octahedron_withcentre ext s c = Ok v ->
  calc_distortions_from_struct_octahedron ext s c = Ok (firstn 4 v) /\
  forall basis,
    json_load_basis ext = Some basis -> length (Py.keys basis) = 7%nat ->
    length v = 5%nat /\ firstn 4 v = removelast v.
Proof.
  intro H. split.
  - unfold calc_distortions_from_struct_octahedron. now rewrite H.
  - intros basis Hload Hseven. apply withcentre_stages in H.
    destruct H as (basis' & shell & positions & origin & ave_bond & mol & aligned
                   & rot & tr & proj & centre & amps & Hb & _ & _ & _ & _ & _ & _
                   & _ & Hamps & ->).
    unfold read_basis in Hb. rewrite Hload in Hb. injection Hb as <-.
    apply irrep_average_Ok in Hamps. destruct Hamps as [_ Hlen].
    rewrite Hseven in Hlen. simpl in Hlen.
    destruct amps as [|a1 [|a2 [|a3 [|a4 [|a5 amps]]]]]; try discriminate.
    split; reflexivity.
Qed.

Lemma octahedron_drops_centre_witness :
  calc_distortions_from_struct_octahedron perovskite_ext perovskite 0
  = Ok (firstn 4 [0; 0; 0; 0; 0]) /\
  forall basis,
    json_load_basis perovskite_ext = Some basis -> length (Py.keys basis) = 7%nat ->
    length [0; 0; 0; 0; 0] = 5%nat /\ firstn 4 [0; 0; 0; 0; 0] = removelast [0; 0; 0; 0; 0].
Proof.
  apply (octahedron_drops_centre perovskite_ext perovskite 0).
  exact perovskite_run.
Defined.

(** * Further properties of the code *)

(** ** How the analysis can fail *)

Lemma raises_only_bind {A B : Type} (c : result A) (k : A -> result B) :
  raises_only c -> (forall a, raises_only (k a)) -> raises_only (bind c k).
Proof.
  intros Hc Hk. destruct c as [a|e]; simpl; [apply Hk|].
  intros e' He. injection He as <-. now apply (Hc e).
Qed.

Lemma raises_only_raising {A : Type} (o : option A) : raises_only (raising o).
Proof.
  destruct o; intros e He; [discriminate | now injection He].
Qed.

Lemma raises_only_Ok {A : Type} (a : A) : raises_only (Ok a).
Proof.
  intros e He. discriminate.
Qed.

Lemma raises_only_Uncaught {A : Type} : raises_only (@Fail A Uncaught).
Proof.
  intros e He. now injection He.
Qed.

Lemma raises_only_mapM {A B : Type} (f : A -> result B) (l : list A) :
  (forall x, raises_only (f x)) -> raises_only (mapM f l).
Proof.
  intro Hf. induction l as [|x l IH]; simpl.
  - apply raises_only_Ok.
  - apply raises_only_bind; [apply Hf|]. intro y.
    apply raises_only_bind; [exact IH|]. intro ys. apply raises_only_Ok.
Qed.

Lemma raises_only_neighbour_rows (s : Structure) (images : list image_t)
  (idx : list Z) : forall i, raises_only (neighbour_rows s images i idx).
Proof.
  induction idx as [|site idx IH]; simpl; intro i.
  - apply raises_only_Ok.
  - repeat (apply raises_only_bind;
            [try apply raises_only_raising; try apply IH | intro]).
    apply raises_only_Ok.
Qed.

Lemma raises_only_irrep_sums (basis : BasisTable) (squared : list R)
  (irreps : list string) : forall count, raises_only (irrep_sums basis irreps squared count).
Proof.
  induction irreps as [|k irreps IH]; simpl; intro count.
  - apply raises_only_Ok.
  - repeat (apply raises_only_bind;
            [try apply raises_only_raising; try apply IH | intro]).
    apply raises_only_Ok.
Qed.

#[local] Hint Resolve raises_only_raising raises_only_Ok raises_only_Uncaught
  raises_only_mapM raises_only_neighbour_rows raises_only_irrep_sums : stages.

Ltac only_uncaught :=
  repeat first
    [ apply raises_only_bind; [| intro]
    | solve [eauto with stages]
    | match goal with
      | |- raises_only (match ?x with _ => _ end) => destruct x
      | |- raises_only (if ?b then _ else _) => destruct b
      end ].

(** Once the basis is read, whatever goes wrong is an uncaught exception. *)
Lemma raises_only_after_basis (ext : External) (s : Structure) (c : Z)
  (basis : BasisTable) :
  json_load_basis ext = Some basis ->
  raises_only (calc_distortions_from_struct_octahedron_withcentre ext s c).
Proof.
  intro Hload.
  unfold calc_distortions_from_struct_octahedron_withcentre, read_basis.
  rewrite Hload. cbn [bind].
  apply raises_only_bind.
  { unfold collect_irrep_distortions, Py.dict_getitem. only_uncaught. }
  intro rows.
  apply raises_only_bind.
  { rewrite nearest_neighbours_eq. only_uncaught. }
  intro shell.
  apply raises_only_bind.
  { unfold neighbour_coords. apply raises_only_mapM. intro d.
    unfold Py.getitem. only_uncaught. }
  intro positions.
  apply raises_only_bind.
  { unfold shell_frame. only_uncaught. }
  intros [origin ave_bond].
  apply raises_only_bind.
  { unfold construct_molecule. only_uncaught. }
  intro mol.
  apply raises_only_bind.
  { unfold construct_molecule_ideal. only_uncaught. }
  intro ideal.
  apply raises_only_bind.
  { unfold match_molecules, apply_match, Py.getitem. only_uncaught. }
  intros [[aligned rot] tr].
  apply raises_only_bind.
  { unfold calc_displacement, Np.sub_rows, Np.tensordot1. only_uncaught. }
  intro proj.
  apply raises_only_bind.
  { unfold calc_displacement_centre, Py.getitem. only_uncaught. }
  intro centre.
  apply raises_only_bind.
  { unfold irrep_average. only_uncaught. }
  intro amps. apply raises_only_Ok.
Qed.

(** X1.  The analysis ends with the basis-file report exactly when the basis
    file cannot be read, whatever the structure and the neighbour query; and
    every other failure is an uncaught exception. *)
Theorem basis_failure_classified (ext : External) (s : Structure) (c : Z) :
  (calc_distortions_from_struct_octahedron_withcentre ext s c = Fail BasisLoadError
   <-> json_load_basis ext = None) /\
  forall e,
    calc_distortions_from_struct_octahedron_withcentre ext s c = Fail e ->
    e = BasisLoadError \/ e = Uncaught.
Proof.
  destruct (json_load_basis ext) as [basis|] eqn:Hload.
  - pose proof (raises_only_after_basis ext s c basis Hload) as Hr.
    split.
    + split; [|discriminate]. intro H. apply Hr in H. discriminate.
    + intros e He. right. now apply Hr.
  - assert (H : calc_distortions_from_struct_octahedron_withcentre ext s c
                = Fail BasisLoadError).
    { unfold calc_distortions_from_struct_octahedron_withcentre, read_basis.
      now rewrite Hload. }
    split.
    + split; auto.
    + intros e He. left. congruence.
Qed.

(** X2.  With a readable basis, a neighbour query that raises or returns no
    candidate at all ends the analysis in an uncaught exception. *)
Theorem no_neighbour_raises (ext : External) (s : Structure) (c : Z)
  (basis : BasisTable) :
  json_load_basis ext = Some basis ->
  get_nn_info ext s c = None \/ get_nn_info ext s c = Some [] ->
  calc_distortions_from_struct_octahedron_withcentre ext s c = Fail Uncaught.
Proof.
  intros Hload Hnn.
  unfold calc_distortions_from_struct_octahedron_withcentre, read_basis.
  rewrite Hload. cbn [bind].
  rewrite collect_irrep_distortions_rows. cbn [bind].
  rewrite nearest_neighbours_eq.
  destruct Hnn as [-> | ->]; reflexivity.
Qed.

Lemma no_neighbour_raises_witness :
  calc_distortions_from_struct_octahedron_withcentre
    {| get_nn_info := fun _ _ => Some [];
       order_match := identity_matcher;
       json_load_basis := Some example_basis |} perovskite 0
  = Fail Uncaught.
Proof.
  apply (no_neighbour_raises _ perovskite 0 example_basis).
  - reflexivity.
  - right. reflexivity.
Defined.

(** ** The choice of the shell *)

Lemma StronglySorted_app_inv {A : Type} (rel : A -> A -> Prop) (l1 l2 : list A) :
  StronglySorted rel (l1 ++ l2) ->
  forall a b, In a l1 -> In b l2 -> rel a b.
Proof.
  induction l1 as [|x l1 IH]; simpl; intros Hs a b Ha Hb.
  - contradiction.
  - inversion Hs as [|? ? Hs' Hx]; subst.
    destruct Ha as [<- | Ha].
    + rewrite Forall_forall in Hx. apply Hx, in_or_app. now right.
    + now apply IH.
Qed.

(** X3.  The candidates are split into the shell and the rest without loss,
    and no candidate left out is heavier than a candidate of the shell. *)
Theorem shell_outweighs_the_rest (ext : External) (s : Structure) (c : Z)
  (nn : list NeighborCandidate) :
  get_nn_info ext s c = Some nn ->
  exists shell rest,
    nearest_neighbours ext s c = Ok shell /\
    Permutation (shell ++ rest) nn /\
    length rest = (length nn - 6)%nat /\
    forall a b, In a shell -> In b rest -> weight b <= weight a.
Proof.
  intro Hnn.
  exists (firstn 6 (Py.sorted (fun x => - weight x) nn)),
    (skipn 6 (Py.sorted (fun x => - weight x) nn)).
  split; [rewrite nearest_neighbours_eq, Hnn; reflexivity|].
  split; [rewrite firstn_skipn; apply sorted_perm|].
  split.
  - rewrite length_skipn. f_equal. apply Permutation_length, sorted_perm.
  - apply (StronglySorted_app_inv heavier).
    rewrite firstn_skipn. apply sorted_by_weight_heavier.
Qed.

Lemma shell_outweighs_the_rest_witness :
  exists shell rest,
    nearest_neighbours perovskite_ext perovskite 0 = Ok shell /\
    Permutation (shell ++ rest) perovskite_nn /\
    length rest = (length perovskite_nn - 6)%nat /\
    forall a b, In a shell -> In b rest -> weight b <= weight a.
Proof.
  apply (shell_outweighs_the_rest perovskite_ext perovskite 0 perovskite_nn).
  reflexivity.
Defined.

Lemma insert_by_filter {A : Type} (key : A -> R) (p : A -> bool) (x : A)
  (l : list A) :
  (forall y, p x = true -> p y = true -> key y = key x) ->
  filter p (Py.insert_by key x l) = filter p (x :: l).
Proof.
  intro Hp. induction l as [|y l IH]; [reflexivity|].
  cbn [Py.insert_by]. destruct (Rlt_dec (key y) (key x)) as [Hlt|_]; [|reflexivity].
  cbn [filter] in *. rewrite IH.
  destruct (p x) eqn:Ex, (p y) eqn:Ey; try reflexivity.
  specialize (Hp y eq_refl Ey). lra.
Qed.

Lemma sorted_filter {A : Type} (key : A -> R) (p : A -> bool) (l : list A) :
  (forall x y, p x = true -> p y = true -> key y = key x) ->
  filter p (Py.sorted key l) = filter p l.
Proof.
  intro Hp. induction l as [|x l IH]; [reflexivity|].
  unfold Py.sorted in *. cbn [fold_right].
  rewrite insert_by_filter by (intros; now apply Hp).
  cbn [filter]. now rewrite IH.
Qed.

(** X4.  Ties are kept in the order of the neighbour query: among the
    ranked candidates, those of any given weight come in the order in
    which the query returned them. *)
Theorem ties_keep_query_order (ext : External) (s : Structure) (c : Z)
  (nn : list NeighborCandidate) :
  get_nn_info ext s c = Some nn ->
  exists ranked,
    nearest_neighbours ext s c = Ok (firstn 6 ranked) /\
    StronglySorted heavier ranked /\
    forall w, filter (weighs w) ranked = filter (weighs w) nn.
Proof.
  intro Hnn. exists (Py.sorted (fun x => - weight x) nn).
  split; [rewrite nearest_neighbours_eq, Hnn; reflexivity|].
  split; [apply sorted_by_weight_heavier|].
  intro w. apply sorted_filter. unfold weighs. intros x y Hx Hy.
  destruct (Req_dec_T (weight x) w); [|discriminate].
  destruct (Req_dec_T (weight y) w); [|discriminate].
  lra.
Qed.

Lemma ties_keep_query_order_witness :
  exists ranked,
    nearest_neighbours perovskite_ext perovskite 0 = Ok (firstn 6 ranked) /\
    StronglySorted heavier ranked /\
    forall w, filter (weighs w) ranked = filter (weighs w) perovskite_nn.
Proof.
  apply (ties_keep_query_order perovskite_ext perovskite 0 perovskite_nn).
  reflexivity.
Defined.

(** ** Indices *)

Lemma index_in_range {A : Type} (l : list A) (i : Z) :
  (exists x, Py.index l i = Some x) <->
  (- Z.of_nat (length l) <= i < Z.of_nat (length l))%Z.
Proof.
  unfold Py.index.
  destruct (0 <=? i)%Z eqn:E0.
  - apply Z.leb_le in E0. split.
    + intros [x Hx].
      assert (Hlt : (Z.to_nat i < length l)%nat)
        by (apply nth_error_Some; congruence).
      lia.
    + intros [_ Hi].
      destruct (nth_error l (Z.to_nat i)) eqn:En; [eauto|].
      apply nth_error_None in En. lia.
  - apply Z.leb_gt in E0.
    destruct (- Z.of_nat (length l) <=? i)%Z eqn:E1.
    + apply Z.leb_le in E1. split; [intros _; lia|]. intros _.
      destruct (nth_error l (Z.to_nat (Z.of_nat (length l) + i))) eqn:En; [eauto|].
      apply nth_error_None in En. lia.
    + apply Z.leb_gt in E1. split; [intros [x Hx]; discriminate | lia].
Qed.

Lemma index_wraps {A : Type} (l : list A) (i : Z) :
  (- Z.of_nat (length l) <= i < 0)%Z ->
  Py.index l i = Py.index l (Z.of_nat (length l) + i).
Proof.
  intros [Hlo Hhi]. unfold Py.index.
  destruct (0 <=? i)%Z eqn:E0; [apply Z.leb_le in E0; lia|].
  destruct (- Z.of_nat (length l) <=? i)%Z eqn:E1; [|apply Z.leb_gt in E1; lia].
  destruct (0 <=? Z.of_nat (length l) + i)%Z eqn:E2; [reflexivity|].
  apply Z.leb_gt in E2. lia.
Qed.

(** X5.  The central displacement is computed exactly for a centre index
    between -n and n-1, n being the number of sites; any other index
    raises.  A negative index counts from the last site, so that -1, which
    the command line produces from atom number 0, is the last site. *)
Theorem centre_index_bounds (s : Structure) (c : Z) (origin : vec3)
  (ave_bond : R) (rot : mat3) :
  ((exists x, calc_displacement_centre s c origin ave_bond rot = Ok x)
   <-> (- num_sites s <= c < num_sites s)%Z) /\
  (~ (- num_sites s <= c < num_sites s)%Z ->
   calc_displacement_centre s c origin ave_bond rot = Fail Uncaught) /\
  ((- num_sites s <= c < 0)%Z ->
   calc_displacement_centre s c origin ave_bond rot
   = calc_displacement_centre s (num_sites s + c) origin ave_bond rot).
Proof.
  unfold num_sites. split; [|split].
  - rewrite <- index_in_range. split.
    + intros [x Hx]. apply calc_displacement_centre_Ok in Hx.
      destruct Hx as (p & Hp & _). eauto.
    + intros [p Hp]. eexists. apply calc_displacement_centre_Ok. eauto.
  - intro Hout. rewrite <- index_in_range in Hout.
    unfold calc_displacement_centre, Py.getitem.
    destruct (Py.index (sites s) c); [|reflexivity].
    exfalso. apply Hout. eauto.
  - intro Hneg. unfold calc_displacement_centre, Py.getitem.
    now rewrite (index_wraps (sites s) c).
Qed.

Lemma centre_index_bounds_witness :
  (- num_sites perovskite <= -1 < 0)%Z /\
  (exists x, calc_displacement_centre perovskite (-1) (0, 0, 0) 2 Np.eye3 = Ok x) /\
  calc_displacement_centre perovskite (-1) (0, 0, 0) 2 Np.eye3
  = calc_displacement_centre perovskite (num_sites perovskite + -1) (0, 0, 0) 2
      Np.eye3.
Proof.
  assert (H : (- num_sites perovskite <= -1 < 0)%Z) by (unfold num_sites; simpl; lia).
  destruct (centre_index_bounds perovskite (-1) (0, 0, 0) 2 Np.eye3)
    as (Hiff & _ & Hwrap).
  split; [exact H|]. split.
  - apply Hiff. unfold num_sites in *. simpl in *. lia.
  - apply Hwrap. exact H.
Defined.

(** ** The shape of a constructed molecule *)

Lemma neighbour_rows_Ok (s : Structure) (images : list image_t) (idx : list Z) :
  forall (i : nat) (rows : list vec3),
    neighbour_rows s images i idx = Ok rows ->
    length rows = length idx /\
    Forall (fun k => (- num_sites s <= k < num_sites s)%Z) idx /\
    (idx = [] \/ (i + length idx <= length images)%nat).
Proof.
  induction idx as [|site idx IH]; simpl; intros i rows H.
  - injection H as <-. auto.
  - inv_bind H. apply getitem_Ok in Ha.
    inv_bind H. apply getitem_Ok in Ha0. rewrite index_of_nat in Ha0.
    inv_bind H. injection H as <-.
    apply IH in Ha1. destruct Ha1 as (Hlen & Hall & Hb).
    assert (Hi : (i < length images)%nat) by (apply nth_error_Some; congruence).
    split; [simpl; congruence|]. split.
    + constructor; [|assumption]. apply index_in_range. eauto.
    + right. destruct Hb as [-> | Hb]; simpl; lia.
Qed.

Lemma neighbour_rows_total (s : Structure) (images : list image_t) (idx : list Z) :
  Forall (fun k => (- num_sites s <= k < num_sites s)%Z) idx ->
  forall i, (i + length idx <= length images)%nat ->
            exists rows, neighbour_rows s images i idx = Ok rows.
Proof.
  induction 1 as [|site idx Hsite _ IH]; simpl; intros i Hi.
  - eauto.
  - apply index_in_range in Hsite. destruct Hsite as [p Hp].
    apply getitem_Ok in Hp. rewrite Hp. cbn [bind].
    destruct (nth_error images i) as [im|] eqn:En;
      [|apply nth_error_None in En; lia].
    unfold Py.getitem at 1. rewrite index_of_nat, En. cbn [raising bind].
    destruct (IH (S i)) as [rows Hrows]; [lia|].
    rewrite Hrows. cbn [bind]. eauto.
Qed.

(** X6.  [construct_molecule] returns a molecule exactly when it is given
    at least one neighbour, as many images as neighbours, and site indices
    between -n and n-1; the molecule then has one point more than there are
    neighbours, and its first point is the origin. *)
Theorem construct_molecule_shape (s : Structure) (centre : Z) (idx : list Z)
  (ave_bond : R) (images : list image_t) (origin : vec3) :
  ((exists mol, construct_molecule s centre idx ave_bond images origin = Ok mol)
   <-> idx <> [] /\ length images = length idx /\
       Forall (fun k => (- num_sites s <= k < num_sites s)%Z) idx) /\
  forall mol,
    construct_molecule s centre idx ave_bond images origin = Ok mol ->
    length mol = S (length idx) /\ nth_error mol 0 = Some Np.zeros3.
Proof.
  unfold construct_molecule. split; [split|].
  - intros [mol H]. inv_bind H. apply neighbour_rows_Ok in Ha.
    destruct Ha as (Hlen & Hall & _).
    destruct a as [|r rows]; [discriminate|].
    destruct (length images =? length (r :: rows))%nat eqn:E; [|discriminate].
    apply Nat.eqb_eq in E.
    split; [intros ->; discriminate|]. split; [congruence | assumption].
  - intros (Hne & Hlen & Hall).
    destruct (neighbour_rows_total s images idx Hall 0%nat) as [rows Hrows];
      [simpl; lia|].
    rewrite Hrows. cbn [bind].
    apply neighbour_rows_Ok in Hrows. destruct Hrows as (Hr & _ & _).
    destruct rows as [|r rows].
    + destruct idx; [congruence | discriminate].
    + rewrite Hlen, <- Hr, Nat.eqb_refl. eauto.
  - intros mol H. inv_bind H. apply neighbour_rows_Ok in Ha.
    destruct Ha as (Hlen & _ & _).
    destruct a as [|r rows]; [discriminate|].
    destruct (length images =? length (r :: rows))%nat; [|discriminate].
    injection H as <-. split; [|reflexivity].
    cbn [length]. now rewrite length_map, <- Hlen.
Qed.

(** ** Normalisation of the shell *)

Lemma sum_nonneg (l : list R) : Forall (fun x => 0 <= x) l -> 0 <= Np.sum l.
Proof.
  unfold Np.sum. induction 1 as [|x l Hx _ IH]; simpl; lra.
Qed.

Lemma sum_scaled (k : R) {A : Type} (f : A -> R) (l : list A) :
  Np.sum (map (fun x => k * f x) l) = k * Np.sum (map f l).
Proof.
  unfold Np.sum. induction l as [|x l IH]; simpl; [ring|].
  rewrite IH. ring.
Qed.

Lemma INR_length_nonzero {A : Type} (l : list A) : l <> [] -> INR (length l) <> 0.
Proof.
  intro H. apply not_0_INR. destruct l; [congruence | discriminate].
Qed.

Lemma shell_frame_Ok (positions : list vec3) (origin : vec3) (ave_bond : R) :
  shell_frame positions = Ok (origin, ave_bond) ->
  positions <> [] /\
  origin = Np.mean_axis0 positions /\
  ave_bond = Np.mean (map (fun p => distance p origin) positions) /\
  0 <= ave_bond.
Proof.
  intro H. assert (Hne : positions <> []) by (intros ->; discriminate).
  rewrite shell_frame_nonempty in H by assumption. injection H as <- <-.
  repeat split; try assumption.
  unfold Np.mean. apply Rmult_le_pos.
  - apply sum_nonneg. rewrite Forall_map. apply Forall_forall.
    intros p _. apply sqrt_pos.
  - rewrite length_map. apply Rlt_le, Rinv_0_lt_compat.
    pose proof (INR_length_nonzero positions Hne).
    pose proof (pos_INR (length positions)).
    lra.
Qed.

Lemma sum_axis0_normalised (origin : vec3) (ave_bond : R) (l : list vec3) :
  Np.sum_axis0 (map (fun p => Np.div (Np.sub p origin) ave_bond) l) =
  Np.div (Np.sub (Np.sum_axis0 l) (scaled (INR (length l)) origin)) ave_bond.
Proof.
  induction l as [|p l IH].
  - simpl. vec_crush. unfold Rdiv. by_components; ring.
  - cbn [map Np.sum_axis0 fold_right length].
    fold (Np.sum_axis0 l).
    fold (Np.sum_axis0 (map (fun p => Np.div (Np.sub p origin) ave_bond) l)).
    rewrite IH, S_INR. generalize (Np.sum_axis0 l), (INR (length l)).
    intros t n. vec_crush. unfold Rdiv. by_components; ring.
Qed.

Lemma norm_div (x : vec3) (k : R) : 0 < k -> norm (Np.div x k) = norm x / k.
Proof.
  intro Hk. unfold norm.
  replace (Np.sumsq (Np.div x k)) with (Np.sumsq x * (/ k * / k))
    by (vec_crush; unfold Rdiv; ring).
  rewrite sqrt_mult_alt by apply sumsq_nonneg.
  rewrite sqrt_square by (apply Rlt_le, Rinv_0_lt_compat; assumption).
  reflexivity.
Qed.

(** X7.  The molecule built on a shell is normalised: its points add up to
    the zero vector, and the mean distance of its neighbour points from the
    origin is 1, whenever the neighbours do not all coincide (a non-zero
    [ave_bond]). *)
Theorem constructed_molecule_normalised (s : Structure) (centre : Z)
  (shell : list NeighborCandidate) (positions : list vec3) (origin : vec3)
  (ave_bond : R) (mol : Molecule) :
  located s shell positions ->
  shell_frame positions = Ok (origin, ave_bond) ->
  ave_bond <> 0 ->
  construct_molecule s centre (map site_index shell) ave_bond (map image shell)
    origin = Ok mol ->
  Np.sum_axis0 mol = Np.zeros3 /\ Np.mean (map norm (tl mol)) = 1.
Proof.
  intros Hloc Hframe Hab Hmol.
  apply shell_frame_Ok in Hframe. destruct Hframe as (Hne & Ho & Hbond & Hpos).
  assert (Hn : INR (length positions) <> 0) by now apply INR_length_nonzero.
  rewrite construct_molecule_located with (positions := positions) in Hmol;
    [| intros ->; inversion Hloc; congruence | assumption].
  injection Hmol as <-. split.
  - cbn [Np.sum_axis0 fold_right].
    fold (Np.sum_axis0 (map (fun p => Np.div (Np.sub p origin) ave_bond) positions)).
    rewrite sum_axis0_normalised, Ho. unfold Np.mean_axis0.
    revert Hn. generalize (Np.sum_axis0 positions), (INR (length positions)).
    intros t n Hn. vec_crush. by_components; field; auto.
  - cbn [tl]. rewrite map_map.
    rewrite (map_ext _ (fun p => / ave_bond * distance p origin)).
    + assert (Hsum : Np.sum (map (fun p => distance p origin) positions)
                     = ave_bond * INR (length positions)).
      { unfold Np.mean in Hbond. rewrite length_map in Hbond.
        rewrite Hbond at 1. field. assumption. }
      unfold Np.mean. rewrite sum_scaled, length_map, Hsum. field. auto.
    + intro p. rewrite norm_div by lra. unfold distance. field. assumption.
Qed.

Lemma perovskite_frame :
  shell_frame (map (vertex (1, 1, 1) 2) ideal_coords) = Ok ((1, 1, 1), 2).
Proof.
  apply (regular_shell_molecule perovskite 0 perovskite_shell (1, 1, 1) 2 ideal_coords).
  - lra.
  - reflexivity.
  - exact perovskite_located.
Qed.

Lemma perovskite_molecule :
  construct_molecule perovskite 0 (map site_index perovskite_shell) 2
    (map image perovskite_shell) (1, 1, 1) = Ok ideal_molecule.
Proof.
  apply (regular_shell_molecule perovskite 0 perovskite_shell (1, 1, 1) 2 ideal_coords).
  - lra.
  - reflexivity.
  - exact perovskite_located.
Qed.

Lemma constructed_molecule_normalised_witness :
  Np.sum_axis0 ideal_molecule = Np.zeros3 /\ Np.mean (map norm (tl ideal_molecule)) = 1.
Proof.
  apply (constructed_molecule_normalised perovskite 0 perovskite_shell
           (map (vertex (1, 1, 1) 2) ideal_coords) (1, 1, 1) 2 ideal_molecule).
  - exact perovskite_located.
  - exact perovskite_frame.
  - lra.
  - exact perovskite_molecule.
Defined.

(** ** Moving and scaling the structure *)

Lemma mean_axis0_vertex_image (t : vec3) (k : R) (l : list vec3) :
  l <> [] ->
  Np.mean_axis0 (map (vertex t k) l) = vertex t k (Np.mean_axis0 l).
Proof.
  intro Hne. unfold Np.mean_axis0.
  rewrite sum_axis0_vertex, length_map.
  pose proof (INR_length_nonzero l Hne) as Hn. revert Hn.
  generalize (Np.sum_axis0 l), (INR (length l)). intros u n Hn.
  vec_crush. by_components; field; assumption.
Qed.

Lemma distance_vertex_image (t : vec3) (k : R) (p q : vec3) :
  0 <= k -> distance (vertex t k p) (vertex t k q) = k * distance p q.
Proof.
  intro Hk. unfold distance, norm.
  replace (Np.sumsq (Np.sub (vertex t k p) (vertex t k q)))
    with (k * k * Np.sumsq (Np.sub p q)) by (vec_crush; ring).
  rewrite sqrt_mult_alt by nra.
  now rewrite sqrt_square.
Qed.

Lemma normalised_vertex_image (t : vec3) (k ab : R) (p o : vec3) :
  k <> 0 -> ab <> 0 ->
  Np.div (Np.sub (vertex t k p) (vertex t k o)) (k * ab) = Np.div (Np.sub p o) ab.
Proof.
  intros Hk Hab. vec_crush. by_components; field; auto.
Qed.

(** X8.  Moving the whole neighbourhood by a vector and blowing it up by a
    positive factor moves [molecule_origin] along, multiplies [ave_bond] by
    the factor and leaves the constructed molecule unchanged. *)
Theorem molecule_unchanged_by_move_and_scale (s s' : Structure)
  (centre centre' : Z) (shell shell' : list NeighborCandidate)
  (positions : list vec3) (origin : vec3) (ave_bond : R) (t : vec3) (k : R) :
  located s shell positions ->
  located s' shell' (map (vertex t k) positions) ->
  0 < k ->
  shell_frame positions = Ok (origin, ave_bond) ->
  ave_bond <> 0 ->
  shell_frame (map (vertex t k) positions) = Ok (vertex t k origin, k * ave_bond) /\
  construct_molecule s' centre' (map site_index shell') (k * ave_bond)
    (map image shell') (vertex t k origin)
  = construct_molecule s centre (map site_index shell) ave_bond (map image shell)
      origin.
Proof.
  intros Hloc Hloc' Hk Hframe Hab.
  apply shell_frame_Ok in Hframe. destruct Hframe as (Hne & Ho & Hbond & _).
  assert (Hne' : map (vertex t k) positions <> [])
    by (destruct positions; [congruence | discriminate]).
  assert (Hshell : shell <> []) by (intros ->; inversion Hloc; congruence).
  assert (Hshell' : shell' <> []).
  { intros ->. inversion Hloc' as [E|]. destruct positions; [congruence | discriminate]. }
  split.
  - rewrite shell_frame_nonempty by assumption.
    rewrite mean_axis0_vertex_image by assumption. rewrite <- Ho.
    do 2 f_equal. rewrite map_map.
    rewrite (map_ext _ (fun p => k * distance p origin))
      by (intro p; apply distance_vertex_image; lra).
    unfold Np.mean. rewrite sum_scaled, length_map, Hbond.
    unfold Np.mean. rewrite length_map. unfold Rdiv. ring.
  - rewrite (construct_molecule_located s' centre' shell' (map (vertex t k) positions))
      by assumption.
    rewrite (construct_molecule_located s centre shell positions) by assumption.
    do 2 f_equal. rewrite map_map. apply map_ext. intro p.
    apply normalised_vertex_image; lra.
Qed.

Lemma swollen_located :
  located swollen perovskite_shell
    (map (vertex (1, 0, 0) 2) (map (vertex (1, 1, 1) 2) ideal_coords)).
Proof.
  unfold located, perovskite_shell, ideal_coords. cbn [map].
  locate_candidates.
Qed.

Lemma molecule_unchanged_by_move_and_scale_witness :
  shell_frame (map (vertex (1, 0, 0) 2) (map (vertex (1, 1, 1) 2) ideal_coords))
  = Ok (vertex (1, 0, 0) 2 (1, 1, 1), 2 * 2) /\
  construct_molecule swollen 0 (map site_index perovskite_shell) (2 * 2)
    (map image perovskite_shell) (vertex (1, 0, 0) 2 (1, 1, 1))
  = construct_molecule perovskite 0 (map site_index perovskite_shell) 2
      (map image perovskite_shell) (1, 1, 1).
Proof.
  apply (molecule_unchanged_by_move_and_scale perovskite swollen 0 0
           perovskite_shell perovskite_shell
           (map (vertex (1, 1, 1) 2) ideal_coords) (1, 1, 1) 2 (1, 0, 0) 2).
  - exact perovskite_located.
  - exact swollen_located.
  - lra.
  - exact perovskite_frame.
  - lra.
Defined.

(** ** The relabelling and the rigid motion of [match_molecules] *)

Lemma mapM_permutation {A B : Type} (f : A -> result B) (l l' : list A) :
  Permutation l l' ->
  forall r, mapM f l = Ok r ->
            exists r', mapM f l' = Ok r' /\ Permutation r r'.
Proof.
  induction 1 as [|x l l' _ IH|x y l|l l' l'' _ IH1 _ IH2]; intros r Hr.
  - exists r. split; [assumption | reflexivity].
  - simpl in Hr. inv_bind Hr. inv_bind Hr. injection Hr as <-.
    destruct (IH _ Ha0) as (r' & Hr' & Hp).
    exists (a :: r'). simpl. rewrite Ha, Hr'. split; [reflexivity | now constructor].
  - simpl in Hr. inv_bind Hr. inv_bind Hr. injection Hr as <-.
    inv_bind Ha0. inv_bind Ha0. injection Ha0 as <-.
    exists (a1 :: a :: a2). simpl. rewrite Ha1, Ha, Ha2.
    split; [reflexivity | apply perm_swap].
  - destruct (IH1 _ Hr) as (r' & Hr' & Hp').
    destruct (IH2 _ Hr') as (r'' & Hr'' & Hp'').
    exists r''. split; [assumption | now transitivity r'].
Qed.

(** X9.  When the matcher's index list is a permutation of 0 .. n-1,
    [match_molecules] cannot fail on it, and the molecule it returns holds
    exactly the transformed points of the molecule it was given, none lost
    and none repeated; the rotation and the translation are passed on as
    the matcher gave them. *)
Theorem match_molecules_permutes (ext : External) (p reference : Molecule)
  (inds : list Z) (u : mat3) (v : vec3) :
  order_match ext reference p = Some (inds, u, v) ->
  index_permutation inds (length p) ->
  exists aligned,
    match_molecules ext p reference = Ok (aligned, u, v) /\
    Permutation aligned (map (symmop_operate u v) p) /\
    length aligned = length p.
Proof.
  intros Hmatch Hperm.
  pose proof (getitem_iota (map (symmop_operate u v) p)) as Hiota.
  rewrite length_map in Hiota.
  unfold index_permutation in Hperm. symmetry in Hperm.
  destruct (mapM_permutation _ _ _ Hperm _ Hiota) as (aligned & Hal & Hp).
  exists aligned. unfold match_molecules, apply_match.
  rewrite Hmatch. cbn [raising bind]. rewrite Hal. cbn [bind].
  split; [reflexivity|]. split; [now symmetry|].
  rewrite <- (Permutation_length Hp). apply length_map.
Qed.

Lemma match_molecules_permutes_witness :
  exists aligned,
    match_molecules perovskite_ext elongated ideal_molecule
    = Ok (aligned, Np.eye3, Np.zeros3) /\
    Permutation aligned (map (symmop_operate Np.eye3 Np.zeros3) elongated) /\
    length aligned = length elongated.
Proof.
  apply (match_molecules_permutes perovskite_ext elongated ideal_molecule
           (map Z.of_nat (seq 0 7))).
  - reflexivity.
  - unfold index_permutation. reflexivity.
Defined.



(** ** What the projection accepts and what it ignores *)



Lemma calc_displacement_same_length (m mi : Molecule) (rows : list (list R)) :
  length m = length mi ->
  calc_displacement m mi rows = Np.tensordot1 rows (spec_displacement m mi).
Proof.
  intro H. unfold calc_displacement. now rewrite sub_rows_same_length.
Qed.



(** X12.  For two molecules with the same number of points the projection
    does not look at their first points: replacing the first point of
    either molecule changes nothing. *)
Theorem calc_displacement_ignores_centre (x x' y y' : vec3) (m mi : Molecule)
  (rows : list (list R)) :
  length m = length mi ->
  calc_displacement (x :: m) (y :: mi) rows
  = calc_displacement (x' :: m) (y' :: mi) rows.
Proof.
  intro H.
  rewrite !calc_displacement_same_length by (simpl; congruence).
  f_equal. unfold spec_displacement. cbn [combine map fst snd].
  destruct (Np.sub x y) as [[a b] c], (Np.sub x' y') as [[a' b'] c'].
  reflexivity.
Qed.

Lemma calc_displacement_ignores_centre_witness :
  calc_displacement ((0, 0, 0) :: tl elongated) ((0, 0, 0) :: ideal_coords)
    (basis_rows example_basis)
  = calc_displacement ((1, 2, 3) :: tl elongated) ((4, 5, 6) :: ideal_coords)
      (basis_rows example_basis).
Proof.
  apply (calc_displacement_ignores_centre (0, 0, 0) (1, 2, 3) (0, 0, 0) (4, 5, 6)).
  reflexivity.
Defined.

Lemma self_displacement_zeros (m : Molecule) :
  Forall (fun x => x = 0) (spec_displacement m m).
Proof.
  unfold spec_displacement.
  assert (H : Forall (fun x => x = 0)
                (Np.ravel (map (fun ab => Np.sub (fst ab) (snd ab)) (combine m m)))).
  { induction m as [|[[x y] z] m IH]; simpl; [constructor|].
    repeat constructor; try ring. exact IH. }
  rewrite <- (firstn_skipn 3) in H. apply Forall_app in H. tauto.
Qed.

Lemma tensordot1_Ok (rows : list (list R)) (d proj : list R) :
  Np.tensordot1 rows d = Ok proj -> proj = map (fun row => Np.dot row d) rows.
Proof.
  unfold Np.tensordot1. destruct rows as [|r rows]; [discriminate|].
  destruct (forallb _ (r :: rows)); [|discriminate].
  intro H. injection H as <-. reflexivity.
Qed.

(** X13.  A molecule projected against itself gives only zeros, whatever
    the basis vectors. *)
Theorem calc_displacement_of_itself (m : Molecule) (rows : list (list R))
  (proj : list R) :
  calc_displacement m m rows = Ok proj -> Forall (fun a => a = 0) proj.
Proof.
  rewrite calc_displacement_same_length by reflexivity.
  intro H. apply tensordot1_Ok in H. subst proj.
  rewrite Forall_map. apply Forall_forall.
  intros b _. apply dot_zeros, self_displacement_zeros.
Qed.

Lemma calc_displacement_of_itself_witness :
  Forall (fun a => a = 0)
    (map (fun row => Np.dot row (spec_displacement elongated elongated))
         (basis_rows example_basis)).
Proof.
  apply (calc_displacement_of_itself elongated (basis_rows example_basis)).
  apply calc_displacement_projections; [reflexivity|].
  exact example_basis_well_formed.
Defined.

(** ** The averaging loop *)

Lemma irrep_sums_total (basis : BasisTable) (squared : list R) :
  forall (irreps : list string) (count : nat),
    incl irreps (Py.keys basis) ->
    exists sums, irrep_sums basis irreps squared count = Ok sums.
Proof.
  induction irreps as [|k irreps IH]; simpl; intros count Hin.
  - eauto.
  - rewrite dict_getitem_keys by (apply Hin; now left). cbn [bind].
    destruct (IH (count + length (irrep_vectors basis k))%nat) as [sums Hs].
    + intros x Hx. apply Hin. now right.
    + rewrite Hs. cbn [bind]. eauto.
Qed.

(** X14.  The averaging loop never raises, whatever the number of
    projections it is given (its slices are clipped): it returns one
    non-negative amplitude per irrep of the table beyond the first three,
    and none when the table has three irreps or fewer. *)
Theorem irrep_average_total (basis : BasisTable) (proj : list R) :
  exists amps,
    irrep_average basis proj = Ok amps /\
    length amps = (length (Py.keys basis) - 3)%nat /\
    Forall (fun a => 0 <= a) amps.
Proof.
  destruct (irrep_sums_total basis (map (fun a => a * a) proj) (Py.keys basis) 0)
    as [sums Hs]; [apply incl_refl|].
  exists (skipn 3 (map sqrt sums)).
  assert (H : irrep_average basis proj = Ok (skipn 3 (map sqrt sums))).
  { unfold irrep_average. now rewrite Hs. }
  split; [exact H|]. apply irrep_average_Ok in H. tauto.
Qed.

Lemma firstn_plus {A : Type} (a b : nat) (l : list A) :
  firstn (a + b) l = firstn a l ++ firstn b (skipn a l).
Proof.
  revert l; induction a as [|a IH]; intros [|x l]; simpl;
    try reflexivity.
  - now rewrite firstn_nil.
  - now rewrite IH.
Qed.

Lemma sum_app (l1 l2 : list R) : Np.sum (l1 ++ l2) = Np.sum l1 + Np.sum l2.
Proof.
  unfold Np.sum. induction l1 as [|x l1 IH]; simpl; [ring|].
  rewrite IH. ring.
Qed.

Lemma irrep_sums_partition (basis : BasisTable) (squared : list R) :
  forall (irreps : list string) (count : nat) (sums : list R),
    irrep_sums basis irreps squared count = Ok sums ->
    Np.sum sums =
    Np.sum (firstn (length (concat (map (irrep_vectors basis) irreps)))
                   (skipn count squared)).
Proof.
  induction irreps as [|k irreps IH]; simpl; intros count sums H.
  - injection H as <-. reflexivity.
  - inv_bind H. inv_bind H. injection H as <-.
    unfold Py.dict_getitem in Ha. unfold irrep_vectors at 1.
    destruct (Py.lookup basis k) as [vecs|]; [|discriminate].
    injection Ha as <-.
    rewrite length_app, firstn_plus, sum_app.
    apply IH in Ha0. rewrite Nat.add_comm, <- skipn_skipn in Ha0.
    change (Np.sum (Np.sum (Py.slice squared count (length vecs)) :: a0))
      with (Np.sum (Py.slice squared count (length vecs)) + Np.sum a0).
    rewrite Ha0. reflexivity.
Qed.

(** X15.  The running count of the averaging loop cuts the squared
    projections into consecutive pieces, one per irrep: when there are no
    more projections than basis vectors, the sums over the irreps add up to
    the sum of all squared projections, each one counted exactly once. *)
Theorem every_projection_counted_once (basis : BasisTable) (proj sums : list R) :
  (length proj <= length (basis_rows basis))%nat ->
  irrep_sums basis (Py.keys basis) (map (fun a => a * a) proj) 0 = Ok sums ->
  length sums = length (Py.keys basis) /\
  Np.sum sums = Np.sum (map (fun a => a * a) proj).
Proof.
  intros Hlen H. split; [eapply irrep_sums_length; eauto|].
  apply irrep_sums_partition in H. rewrite H.
  cbn [skipn]. rewrite firstn_all2; [reflexivity|].
  rewrite length_map. exact Hlen.
Qed.

Lemma every_projection_counted_once_witness :
  exists sums,
    irrep_sums example_basis (Py.keys example_basis)
      (map (fun a => a * a)
           (map (fun row => Np.dot row (spec_displacement elongated ideal_molecule))
                (basis_rows example_basis))) 0 = Ok sums /\
    length sums = length (Py.keys example_basis) /\
    Np.sum sums =
    Np.sum (map (fun a => a * a)
                (map (fun row => Np.dot row (spec_displacement elongated ideal_molecule))
                     (basis_rows example_basis))).
Proof.
  destruct (irrep_sums_total example_basis
              (map (fun a => a * a)
                   (map (fun row => Np.dot row (spec_displacement elongated ideal_molecule))
                        (basis_rows example_basis)))
              (Py.keys example_basis) 0 (incl_refl _)) as [sums Hs].
  exists sums. split; [exact Hs|].
  apply (every_projection_counted_once example_basis
           (map (fun row => Np.dot row (spec_displacement elongated ideal_molecule))
                (basis_rows example_basis)) sums).
  - rewrite length_map. apply Nat.le_refl.
  - exact Hs.
Defined.

Lemma irrep_sums_scaled (basis : BasisTable) (k : R) (squared : list R) :
  forall (irreps : list string) (count : nat) (sums : list R),
    irrep_sums basis irreps squared count = Ok sums ->
    irrep_sums basis irreps (map (Rmult k) squared) count = Ok (map (Rmult k) sums).
Proof.
  induction irreps as [|x irreps IH]; simpl; intros count sums H.
  - injection H as <-. reflexivity.
  - inv_bind H. inv_bind H. injection H as <-.
    rewrite Ha. cbn [bind]. rewrite (IH _ _ Ha0). cbn [bind map].
    do 2 f_equal. unfold Py.slice.
    rewrite skipn_map, firstn_map.
    rewrite <- (map_id (firstn (length a) (skipn count squared))) at 2.
    apply (sum_scaled k (fun x => x)).
Qed.

(** X16.  The amplitudes are homogeneous: multiplying every projection by a
    number [k] multiplies every amplitude by the absolute value of [k]. *)
Theorem irrep_average_homogeneous (basis : BasisTable) (k : R) (proj : list R) :
  exists amps,
    irrep_average basis proj = Ok amps /\
    irrep_average basis (map (Rmult k) proj) = Ok (map (Rmult (Rabs k)) amps).
Proof.
  destruct (irrep_sums_total basis (map (fun a => a * a) proj) (Py.keys basis) 0)
    as [sums Hs]; [apply incl_refl|].
  exists (skipn 3 (map sqrt sums)). unfold irrep_average.
  rewrite Hs. cbn [bind]. split; [reflexivity|].
  rewrite map_map.
  rewrite (map_ext (fun x => k * x * (k * x)) (fun x => k * k * (x * x)))
    by (intro; ring).
  rewrite <- (map_map (fun a => a * a) (Rmult (k * k))).
  rewrite (irrep_sums_scaled basis (k * k) _ _ _ _ Hs). cbn [bind].
  f_equal. rewrite <- skipn_map, !map_map. f_equal.
  apply map_ext. intro x.
  rewrite sqrt_mult_alt by nra.
  f_equal. rewrite <- sqrt_Rsqr_abs. reflexivity.
Qed.

(** ** The result vector *)

(** X17.  The vector the analysis returns has one entry per irrep of the
    table beyond the first three, plus one.  The analysis without the
    centre returns at most four entries of it, and all of it, central
    displacement included, when the table has six irreps or fewer. *)
Theorem result_vector_length (ext : External) (s : Structure) (c : Z)
  (basis : BasisTable) (v : list R) :
  json_load_basis ext = Some basis ->
  calc_distortions_from_struct_octahedron_withcentre ext s c = Ok v ->
  length v = (length (Py.keys basis) - 3 + 1)%nat /\
  exists w,
    calc_distortions_from_struct_octahedron ext s c = Ok w /\
    length w = Nat.min 4 (length (Py.keys basis) - 3 + 1) /\
    ((length (Py.keys basis) <= 6)%nat -> w = v).
Proof.
  intros Hload H.
  assert (Hw : calc_distortions_from_struct_octahedron ext s c = Ok (firstn 4 v)).
  { unfold calc_distortions_from_struct_octahedron. now rewrite H. }
  apply withcentre_stages in H.
  destruct H as (basis' & shell & positions & origin & ave_bond & mol & aligned
                 & rot & tr & proj & centre & amps & Hb & _ & _ & _ & _ & _ & _
                 & _ & Hamps & ->).
  unfold read_basis in Hb. rewrite Hload in Hb. injection Hb as <-.
  apply irrep_average_Ok in Hamps. destruct Hamps as [_ Hlen].
  assert (Hv : length (amps ++ [norm centre]) = (length (Py.keys basis) - 3 + 1)%nat).
  { rewrite length_app, Hlen. reflexivity. }
  split; [exact Hv|].
  exists (firstn 4 (amps ++ [norm centre])).
  split; [exact Hw|]. split.
  - now rewrite length_firstn, Hv.
  - intro Hk. apply firstn_all2. lia.
Qed.

Lemma result_vector_length_witness :
  length [0; 0; 0; 0; 0] = (length (Py.keys example_basis) - 3 + 1)%nat /\
  exists w,
    calc_distortions_from_struct_octahedron perovskite_ext perovskite 0 = Ok w /\
    length w = Nat.min 4 (length (Py.keys example_basis) - 3 + 1) /\
    ((length (Py.keys example_basis) <= 6)%nat -> w = [0; 0; 0; 0; 0]).
Proof.
  apply (result_vector_length perovskite_ext perovskite 0 example_basis).
  - reflexivity.
  - exact perovskite_run.
Defined.

Lemma sumsq_zero (x : vec3) : Np.sumsq x = 0 -> x = Np.zeros3.
Proof.
  intro H. apply sumsq_sub_zero.
  replace (Np.sumsq (Np.sub x Np.zeros3)) with (Np.sumsq x); [lra|].
  vec_crush. ring.
Qed.

(** X18.  With an orthogonal rotation and a non-zero [ave_bond], the
    central displacement is 0 exactly when the centre atom sits at
    [molecule_origin]. *)
Theorem central_displacement_zero_iff (s : Structure) (c : Z) (origin : vec3)
  (ave_bond : R) (rot : mat3) (centre_pos x : vec3) :
  orthogonal rot ->
  ave_bond <> 0 ->
  Py.index (sites s) c = Some centre_pos ->
  calc_displacement_centre s c origin ave_bond rot = Ok x ->
  (sqrt (Np.sumsq x) = 0 <-> centre_pos = origin).
Proof.
  intros Hrot Hab Hc Hx.
  apply calc_displacement_centre_Ok in Hx. destruct Hx as (p & Hp & ->).
  rewrite Hc in Hp. injection Hp as <-.
  rewrite sumsq_vecmat_orthogonal by assumption.
  split.
  - intro H. apply sqrt_eq_0 in H; [|apply sumsq_nonneg].
    apply sumsq_zero in H.
    apply sumsq_sub_zero.
    replace (Np.sumsq (Np.sub centre_pos origin))
      with (ave_bond * ave_bond
            * Np.sumsq (Np.div (Np.sub centre_pos origin) ave_bond))
      by (vec_crush; field; assumption).
    rewrite H. vec_crush. lra.
  - intros ->.
    replace (Np.sumsq (Np.div (Np.sub origin origin) ave_bond)) with 0;
      [apply sqrt_0|].
    vec_crush. unfold Rdiv. ring.
Qed.

Lemma central_displacement_zero_iff_witness :
  exists x,
    calc_displacement_centre perovskite 0 (1, 1, 1) 2 quarter_turn = Ok x /\
    (sqrt (Np.sumsq x) = 0 <-> (1, 1, 1) = (1, 1, 1)).
Proof.
  assert (Hq : orthogonal quarter_turn).
  { split; unfold quarter_turn; vec_crush; by_components; ring. }
  eexists. split; [reflexivity|].
  apply (central_displacement_zero_iff perovskite 0 (1, 1, 1) 2 quarter_turn (1, 1, 1)).
  - exact Hq.
  - lra.
  - reflexivity.
  - reflexivity.
Defined.

(** X19.  In a run of the analysis that returns a vector, whenever the
    aligned molecule has the seven points of the ideal one, the entries
    before the last are the amplitudes of the Basis Projector computed on
    the aligned molecule, the ideal molecule and the table that was read. *)
Theorem run_reports_projected_amplitudes (ext : External) (s : Structure) (c : Z)
  (v : list R) :
  calc_distortions_from_struct_octahedron_withcentre ext s c = Ok v ->
  exists basis shell positions origin ave_bond mol aligned rot tr,
    json_load_basis ext = Some basis /\
    nearest_neighbours ext s c = Ok shell /\
    neighbour_coords s shell = Ok positions /\
    shell_frame positions = Ok (origin, ave_bond) /\
    construct_molecule s c (map site_index shell) ave_bond (map image shell) origin
      = Ok mol /\
    match_molecules ext mol ideal_molecule = Ok (aligned, rot, tr) /\
    (length aligned = 7%nat ->
     removelast v = spec_amplitudes aligned ideal_molecule basis).
Proof.
  intro H. apply withcentre_stages in H.
  destruct H as (basis & shell & positions & origin & ave_bond & mol & aligned
                 & rot & tr & proj & centre & amps & H1 & H2 & H3 & H4 & H5 & H6
                 & H7 & _ & H9 & ->).
  exists basis, shell, positions, origin, ave_bond, mol, aligned, rot, tr.
  unfold read_basis in H1.
  destruct (json_load_basis ext) as [b|]; [|discriminate]. injection H1 as ->.
  repeat (split; [assumption || reflexivity|]).
  intro Hseven. rewrite removelast_last.
  rewrite calc_displacement_same_length in H7 by exact Hseven.
  apply tensordot1_Ok in H7. subst proj.
  rewrite irrep_average_spec in H9. injection H9 as <-. reflexivity.
Qed.

Lemma run_reports_projected_amplitudes_witness :
  exists basis shell positions origin ave_bond mol aligned rot tr,
    json_load_basis perovskite_ext = Some basis /\
    nearest_neighbours perovskite_ext perovskite 0 = Ok shell /\
    neighbour_coords perovskite shell = Ok positions /\
    shell_frame positions = Ok (origin, ave_bond) /\
    construct_molecule perovskite 0 (map site_index shell) ave_bond
      (map image shell) origin = Ok mol /\
    match_molecules perovskite_ext mol ideal_molecule = Ok (aligned, rot, tr) /\
    (length aligned = 7%nat ->
     removelast [0; 0; 0; 0; 0] = spec_amplitudes aligned ideal_molecule basis).
Proof.
  apply (run_reports_projected_amplitudes perovskite_ext perovskite 0).
  exact perovskite_run.
Defined.

(** ** When [match_molecules] raises *)

Lemma raising_Some {A : Type} (o : option A) (a : A) :
  raising o = Ok a -> o = Some a.
Proof.
  destruct o; simpl; congruence.
Qed.

Lemma identity_match (m reference : Molecule) :
  length m = length reference ->
  match_molecules perovskite_ext m reference = Ok (m, Np.eye3, Np.zeros3).
Proof.
  intro H. unfold match_molecules, apply_match.
  cbn [order_match perovskite_ext]. unfold identity_matcher.
  rewrite H, Nat.eqb_refl. cbn [raising bind].
  rewrite (map_ext _ (fun x => x)) by apply symmop_identity.
  rewrite map_id, <- H, getitem_iota. reflexivity.
Qed.

(** X20.  [match_molecules] returns a molecule only if the matcher
    answered and every index of its answer lies between -n and n-1, n
    being the number of points of the molecule; the molecule returned has
    one point per index.  If the matcher raises, so does
    [match_molecules]. *)
Theorem match_molecules_bounds (ext : External) (p reference : Molecule) :
  (forall aligned u v,
      match_molecules ext p reference = Ok (aligned, u, v) ->
      exists inds,
        order_match ext reference p = Some (inds, u, v) /\
        length aligned = length inds /\
        Forall (fun i => (- Z.of_nat (length p) <= i < Z.of_nat (length p))%Z) inds) /\
  (order_match ext reference p = None ->
   match_molecules ext p reference = Fail Uncaught).
Proof.
  unfold match_molecules. split.
  - intros aligned u v H. inv_bind H. destruct a as [[inds u'] v'].
    apply raising_Some in Ha. inv_bind H. injection H as <- <- <-.
    exists inds. split; [assumption|].
    unfold apply_match in Ha0. apply mapM_Ok_Forall2 in Ha0.
    split; [symmetry; eapply Forall2_length; eauto|].
    clear Ha. induction Ha0 as [|i y inds a Hi _ IH]; constructor; [|assumption].
    apply getitem_Ok in Hi.
    rewrite <- (length_map (symmop_operate u' v') p).
    apply index_in_range. eauto.
  - intros ->. reflexivity.
Qed.

Lemma match_molecules_bounds_witness :
  match_molecules perovskite_ext elongated ideal_molecule
  = Ok (elongated, Np.eye3, Np.zeros3) /\
  exists inds,
    order_match perovskite_ext ideal_molecule elongated
    = Some (inds, Np.eye3, Np.zeros3) /\
    length elongated = length inds /\
    Forall (fun i => (- Z.of_nat (length elongated) <= i
                      < Z.of_nat (length elongated))%Z) inds.
Proof.
  assert (H : match_molecules perovskite_ext elongated ideal_molecule
              = Ok (elongated, Np.eye3, Np.zeros3))
    by (apply identity_match; reflexivity).
  split; [exact H|].
  apply (proj1 (match_molecules_bounds perovskite_ext elongated ideal_molecule)).
  exact H.
Defined.
